(** * protoc-gen-twirp_dart: the IR construction pipeline of [generator/client.go]

    A shallow embedding of the Go code that turns a decoded protobuf file
    descriptor into the [APIContext] consumed by the Dart client template,
    together with the properties the specification states about it.

    Conventions of the embedding.
    - Go strings are byte strings; they are modelled by [string].  Protobuf
      identifiers, type names and file names are ASCII, and on ASCII input
      [strings.ToUpper] / [strings.ToLower] act byte-wise on the letters.
    - A Go pointer to a [Model] is an address into a store of models kept
      in the context, so that the aliasing between [ctx.Models] and
      [ctx.modelLookup] is the one of the program.
    - A run of the code ends in one of four ways, see [result]: it returns,
      it stops in [log.Fatalf], it stops in a runtime panic, or (for the
      recursive closure only) the model runs out of fuel. *)

From Stdlib Require Import Ascii String List Arith Bool Lia.
From stdpp Require Import base option list strings gmap fin_maps.

Import ListNotations.
Set Warnings "-register-all".
Open Scope string_scope.
Open Scope list_scope.

(** String concatenation is to unfold on constructors, as on literals. *)
#[local] Arguments String.append !s1 s2 / : simpl nomatch.

(** ** Outcomes of a run *)

Inductive panic : Type :=
| NilDereference      (* invalid memory address or nil pointer dereference *)
| SliceBoundsOutOfRange
| IndexOutOfRange.

Inductive result (A : Type) : Type :=
| Done (a : A)              (* the function returns *)
| Fatal (diagnostic : string) (* log.Fatalf: message printed, os.Exit(1) *)
| Panicked (p : panic)      (* runtime panic *)
| OutOfFuel.                (* the recursion is deeper than the fuel given *)

Arguments Done {A} a.
Arguments Fatal {A} diagnostic.
Arguments Panicked {A} p.
Arguments OutOfFuel {A}.

Definition bind {A B : Type} (r : result A) (k : A -> result B) : result B :=
  match r with
  | Done a => k a
  | Fatal d => Fatal d
  | Panicked p => Panicked p
  | OutOfFuel => OutOfFuel
  end.

Notation "'let*' x ':=' r 'in' k" := (bind r (fun x => k))
  (at level 10, x name, r at level 100, k at level 200).

(** ** The parts of Go's [strings] package the generator uses *)

Definition is_lower (c : ascii) : bool :=
  (97 <=? nat_of_ascii c)%nat && (nat_of_ascii c <=? 122)%nat.

Definition is_upper (c : ascii) : bool :=
  (65 <=? nat_of_ascii c)%nat && (nat_of_ascii c <=? 90)%nat.

Definition upper_ascii (c : ascii) : ascii :=
  if is_lower c then ascii_of_nat (nat_of_ascii c - 32) else c.

Definition lower_ascii (c : ascii) : ascii :=
  if is_upper c then ascii_of_nat (nat_of_ascii c + 32) else c.

Fixpoint strings_ToUpper (s : string) : string :=
  match s with
  | EmptyString => EmptyString
  | String c r => String (upper_ascii c) (strings_ToUpper r)
  end.

Fixpoint strings_ToLower (s : string) : string :=
  match s with
  | EmptyString => EmptyString
  | String c r => String (lower_ascii c) (strings_ToLower r)
  end.

(** [strings.Split(s, sep)] for a one-byte separator, the only use the
    generator makes of it ("_", "." and the path separator).  The result
    is never empty: a string without separator is its own single part. *)
Fixpoint strings_Split (s : string) (sep : ascii) : list string :=
  match s with
  | EmptyString => [EmptyString]
  | String c r =>
      if Ascii.eqb c sep then EmptyString :: strings_Split r sep
      else match strings_Split r sep with
           | p :: ps => String c p :: ps
           | [] => [String c EmptyString]
           end
  end.

(** [strings.Join(parts, sep)] *)
Fixpoint strings_Join (parts : list string) (sep : string) : string :=
  match parts with
  | [] => EmptyString
  | [p] => p
  | p :: ps => p +:+ sep +:+ strings_Join ps sep
  end.

Fixpoint strings_HasPrefix (s pre : string) : bool :=
  match pre, s with
  | EmptyString, _ => true
  | String _ _, EmptyString => false
  | String a pre', String b s' => Ascii.eqb a b && strings_HasPrefix s' pre'
  end.

Fixpoint drop_bytes (n : nat) (s : string) : string :=
  match n, s with
  | O, _ => s
  | S _, EmptyString => EmptyString
  | S k, String _ r => drop_bytes k r
  end.

Definition strings_TrimPrefix (s pre : string) : string :=
  if strings_HasPrefix s pre then drop_bytes (String.length pre) s else s.

Definition string_rev (s : string) : string :=
  string_of_list_ascii (rev (list_ascii_of_string s)).

Definition strings_HasSuffix (s suf : string) : bool :=
  strings_HasPrefix (string_rev s) (string_rev suf).

(** [strings.Replace(s, old, new, -1)] with [new] empty and [old] not: every
    non-overlapping occurrence of [old], found from the left, is removed.
    [skip] counts the bytes of a match that remain to be dropped. *)
Fixpoint remove_all_from (old : string) (skip : nat) (s : string) : string :=
  match s with
  | EmptyString => EmptyString
  | String c r =>
      match skip with
      | S k => remove_all_from old k r
      | O => if strings_HasPrefix s old
             then remove_all_from old (String.length old - 1) r
             else String c (remove_all_from old 0 r)
      end
  end.

Definition strings_Remove (s old : string) : string := remove_all_from old 0 s.

(** ** Descriptors (the decoded input of the plugin) *)

Inductive FieldDescriptorProto_Type : Type :=
| TYPE_DOUBLE | TYPE_FLOAT | TYPE_INT64 | TYPE_UINT64 | TYPE_INT32
| TYPE_FIXED64 | TYPE_FIXED32 | TYPE_BOOL | TYPE_STRING | TYPE_GROUP
| TYPE_MESSAGE | TYPE_BYTES | TYPE_UINT32 | TYPE_ENUM | TYPE_SFIXED32
| TYPE_SFIXED64 | TYPE_SINT32 | TYPE_SINT64.

Inductive FieldDescriptorProto_Label : Type :=
| LABEL_OPTIONAL | LABEL_REQUIRED | LABEL_REPEATED.

(** [fd_Name], [fd_Type] and [fd_TypeName] are what [GetName()],
    [GetType()] and [GetTypeName()] return; [fd_Label] is the pointer
    field [Label], which [isRepeated] tests against nil. *)
Record FieldDescriptorProto : Type := {
  fd_Name : string;
  fd_Type : FieldDescriptorProto_Type;
  fd_TypeName : string;
  fd_Label : option FieldDescriptorProto_Label
}.

(** [md_MapEntry] is [GetOptions() != nil && GetOptions().GetMapEntry()]. *)
Inductive DescriptorProto : Type := Build_DescriptorProto {
  md_Name : string;
  md_Field : list FieldDescriptorProto;
  md_NestedType : list DescriptorProto;
  md_MapEntry : bool
}.

Record MethodDescriptorProto : Type := {
  mth_Name : string;
  mth_InputType : string;
  mth_OutputType : string
}.

Record ServiceDescriptorProto : Type := {
  sd_Name : string;
  sd_Method : list MethodDescriptorProto
}.

(** [file_Name] is the pointer field [Name]: [GetName()] reads it with
    the empty string for nil, [*d.Name] dereferences it. *)
Record FileDescriptorProto : Type := {
  file_Name : option string;
  file_Package : string;
  file_MessageType : list DescriptorProto;
  file_Service : list ServiceDescriptorProto;
  file_Dependency : list string
}.

Definition GetName (d : FileDescriptorProto) : string :=
  match file_Name d with Some n => n | None => EmptyString end.

(** [DescriptorProto.GetMapFields] of the descriptor library: nil, nil
    unless the message carries the map_entry option, else its first two
    fields, indexed without a bounds check. *)
Definition GetMapFields (msg : DescriptorProto)
  : result (option (FieldDescriptorProto * FieldDescriptorProto)) :=
  if md_MapEntry msg then
    match md_Field msg with
    | k :: v :: _ => Done (Some (k, v))
    | _ => Panicked IndexOutOfRange
    end
  else Done None.

(** ** The intermediate representation *)

Inductive ModelField : Type := Build_ModelField {
  f_Name : string;
  f_Type : string;
  f_InternalType : string;
  f_JSONName : string;
  f_JSONType : string;
  f_IsMessage : bool;
  f_IsRepeated : bool;
  f_IsMap : bool;
  f_MapKeyField : option ModelField;
  f_MapValueField : option ModelField
}.

Record Model : Type := {
  m_Name : string;
  m_Primitive : bool;
  m_Fields : list ModelField;
  m_CanMarshal : bool;
  m_CanUnmarshal : bool
}.

Record ServiceMethod : Type := {
  sm_Name : string;
  sm_Path : string;
  sm_InputArg : string;
  sm_InputType : string;
  sm_OutputType : string
}.

Record Service : Type := {
  s_Name : string;
  s_Package : string;
  s_Methods : list ServiceMethod
}.

Record Import : Type := { Path : string }.

(** ** Type Mapper and Field Resolver *)

Definition isRepeated (field : FieldDescriptorProto) : bool :=
  match fd_Label field with
  | Some LABEL_REPEATED => true
  | _ => false
  end.

Definition removePkg (s : string) : string :=
  List.last (strings_Split s ".") EmptyString.

(** The triple is (dartType, internalType, jsonType), in the order of the
    Go return statement. *)
Definition protoToDartType (f : FieldDescriptorProto) : string * string * string :=
  let '(dartType, jsonType) :=
    match fd_Type f with
    | TYPE_DOUBLE => ("double", "number")
    | TYPE_FIXED32 | TYPE_FIXED64 | TYPE_INT32 | TYPE_INT64 => ("int", "number")
    | TYPE_STRING => ("String", "string")
    | TYPE_BOOL => ("bool", "boolean")
    | TYPE_MESSAGE =>
        let name := fd_TypeName f in
        if String.eqb name ".google.protobuf.Timestamp"
        then ("DateTime", "string")
        else (removePkg name, removePkg name +:+ "JSON")
    | _ => ("String", "string")
    end in
  let internalType := dartType in
  if isRepeated f
  then ("List<" +:+ dartType +:+ ">", internalType, jsonType +:+ "[]")
  else (dartType, internalType, jsonType).

(** The loop of [camelCase] over [range parts]: [todo] are the elements
    still to visit, [i] the index of the first of them, [parts] the slice
    being overwritten in place.  [p[0:1]] panics on an empty part. *)
Fixpoint camelCase_loop (i : nat) (todo parts : list string) : result (list string) :=
  match todo with
  | [] => Done parts
  | p :: rest =>
      if (i =? 0)%nat then camelCase_loop (S i) rest (<[i := p]> parts)
      else match p with
           | EmptyString => Panicked SliceBoundsOutOfRange
           | String c tl =>
               camelCase_loop (S i) rest
                 (<[i := strings_ToUpper (String c EmptyString) +:+ strings_ToLower tl]> parts)
           end
  end.

Definition camelCase (s : string) : result string :=
  let parts := strings_Split s "_" in
  let* parts' := camelCase_loop 0 parts parts in
  Done (strings_Join parts' EmptyString).

(** [field.IsMap = true; field.MapKeyField = ...; field.MapValueField = ...;
    field.Type = fmt.Sprintf("Map<%s,%s>", ...)] *)
Definition set_map (field mapKeyField mapValueField : ModelField) : ModelField :=
  {| f_Name := f_Name field;
     f_Type := "Map<" +:+ f_Type mapKeyField +:+ "," +:+ f_Type mapValueField +:+ ">";
     f_InternalType := f_InternalType field;
     f_JSONName := f_JSONName field;
     f_JSONType := f_JSONType field;
     f_IsMessage := f_IsMessage field;
     f_IsRepeated := f_IsRepeated field;
     f_IsMap := true;
     f_MapKeyField := Some mapKeyField;
     f_MapValueField := Some mapValueField |}.

(** [field.IsMessage = ...; field.IsRepeated = ...] *)
Definition set_kind (field : ModelField) (isMessage isRep : bool) : ModelField :=
  {| f_Name := f_Name field; f_Type := f_Type field;
     f_InternalType := f_InternalType field;
     f_JSONName := f_JSONName field; f_JSONType := f_JSONType field;
     f_IsMessage := isMessage; f_IsRepeated := isRep;
     f_IsMap := f_IsMap field;
     f_MapKeyField := f_MapKeyField field;
     f_MapValueField := f_MapValueField field |}.

(** The loop of [newField] over [m.GetNestedType()]; [rec] is [newField]
    itself, called on the key and value descriptors of a map entry.  A
    later nested type that matches overwrites what an earlier one set. *)
Fixpoint newField_nested
    (rec : FieldDescriptorProto -> DescriptorProto -> result ModelField)
    (f : FieldDescriptorProto) (nesteds : list DescriptorProto)
    (field : ModelField) : result ModelField :=
  match nesteds with
  | [] => Done field
  | nested :: rest =>
      if negb (strings_HasSuffix (fd_TypeName f) (md_Name nested))
      then newField_nested rec f rest field
      else
        let* kv := GetMapFields nested in
        match kv with
        | Some (keyField, valueField) =>
            let* mapKeyField := rec keyField nested in
            let* mapValueField := rec valueField nested in
            newField_nested rec f rest (set_map field mapKeyField mapValueField)
        | None => newField_nested rec f rest field
        end
  end.

(** [newField]; the generator argument is only passed along and is left
    out. *)
Fixpoint newField (f : FieldDescriptorProto) (m : DescriptorProto)
    (d : FileDescriptorProto) {struct m} : result ModelField :=
  let '(dartType, internalType, jsonType) := protoToDartType f in
  let jsonName := fd_Name f in
  let* name := camelCase jsonName in
  let field :=
    {| f_Name := name; f_Type := dartType; f_InternalType := internalType;
       f_JSONName := jsonName; f_JSONType := jsonType;
       f_IsMessage := false; f_IsRepeated := false; f_IsMap := false;
       f_MapKeyField := None; f_MapValueField := None |} in
  let* field :=
    newField_nested (fun k nested => newField k nested d) f (md_NestedType m) field in
  Done (set_kind field
          (match fd_Type f with TYPE_MESSAGE => true | _ => false end)
          (isRepeated f)).

(** ** The context and its store of models

    [Models] and [modelLookup] hold addresses into [store]; a [*Model]
    that is nil is [None]. *)
Record APIContext : Type := {
  store : list Model;
  Models : list nat;
  Services : list Service;
  Imports : list Import;
  modelLookup : gmap string nat
}.

Definition NewAPIContext : APIContext :=
  {| store := []; Models := []; Services := []; Imports := [];
     modelLookup := ∅ |}.

(** Reading through a [*Model]. *)
Definition deref (ctx : APIContext) (m : option nat) : result Model :=
  match m with
  | None => Panicked NilDereference
  | Some a =>
      match store ctx !! a with
      | Some model => Done model
      | None => Panicked NilDereference
      end
  end.

(** [&Model{...}]: a fresh address. *)
Definition new_Model (model : Model) (ctx : APIContext) : nat * APIContext :=
  (length (store ctx),
   {| store := store ctx ++ [model]; Models := Models ctx;
      Services := Services ctx; Imports := Imports ctx;
      modelLookup := modelLookup ctx |}).

Definition with_store (ctx : APIContext) (st : list Model) : APIContext :=
  {| store := st; Models := Models ctx; Services := Services ctx;
     Imports := Imports ctx; modelLookup := modelLookup ctx |}.

Definition set_CanMarshal (model : Model) : Model :=
  {| m_Name := m_Name model; m_Primitive := m_Primitive model;
     m_Fields := m_Fields model; m_CanMarshal := true;
     m_CanUnmarshal := m_CanUnmarshal model |}.

Definition set_CanUnmarshal (model : Model) : Model :=
  {| m_Name := m_Name model; m_Primitive := m_Primitive model;
     m_Fields := m_Fields model; m_CanMarshal := m_CanMarshal model;
     m_CanUnmarshal := true |}.

(** [m.CanMarshal = true] and [m.CanUnmarshal = true] through the pointer. *)
Definition write_CanMarshal (a : nat) (ctx : APIContext) : APIContext :=
  with_store ctx (alter set_CanMarshal a (store ctx)).

Definition write_CanUnmarshal (a : nat) (ctx : APIContext) : APIContext :=
  with_store ctx (alter set_CanUnmarshal a (store ctx)).

Definition AddModel (m : option nat) (ctx : APIContext) : result APIContext :=
  match m with
  | None => Panicked NilDereference
  | Some a =>
      let* model := deref ctx m in
      Done {| store := store ctx; Models := Models ctx ++ [a];
              Services := Services ctx; Imports := Imports ctx;
              modelLookup := <[m_Name model := a]> (modelLookup ctx) |}
  end.

(** ** Reference graph and marshal closure *)

Definition could_not_find (type_ field : string) : string :=
  "could not find model of type " +:+ type_ +:+ " for field " +:+ field.

(** The guard [!f.IsMessage || f.Type == "DateTime"] of the three loops. *)
Definition skipped (f : ModelField) : bool :=
  negb (f_IsMessage f) || String.eqb (f_Type f) "DateTime".

(** The loop [for _, f := range m.Fields] that [enableMarshal] and
    [enableUnmarshal] both run, [rec] being the function itself: fields
    that are not messages or whose type is DateTime are skipped, a type
    that is not in the lookup table is fatal, any other is recursed into. *)
Fixpoint range_Fields (rec : option nat -> APIContext -> result APIContext)
    (fields : list ModelField) (ctx : APIContext) : result APIContext :=
  match fields with
  | [] => Done ctx
  | f :: rest =>
      if skipped f then range_Fields rec rest ctx
      else
        match modelLookup ctx !! f_Type f with
        | None => Fatal (could_not_find (f_Type f) (f_Name f))
        | Some mm =>
            let* ctx := rec (Some mm) ctx in
            range_Fields rec rest ctx
        end
  end.

(** [enableMarshal] and [enableUnmarshal]: one unit of fuel per call
    frame.  The write through [m] comes first and panics on nil. *)
Fixpoint enableMarshal (fuel : nat) (m : option nat) (ctx : APIContext)
  : result APIContext :=
  match fuel with
  | O => OutOfFuel
  | S fuel' =>
      match m with
      | None => Panicked NilDereference
      | Some a =>
          let* model := deref ctx m in
          let ctx := write_CanMarshal a ctx in
          range_Fields (enableMarshal fuel') (m_Fields model) ctx
      end
  end.

Fixpoint enableUnmarshal (fuel : nat) (m : option nat) (ctx : APIContext)
  : result APIContext :=
  match fuel with
  | O => OutOfFuel
  | S fuel' =>
      match m with
      | None => Panicked NilDereference
      | Some a =>
          let* model := deref ctx m in
          let ctx := write_CanUnmarshal a ctx in
          range_Fields (enableUnmarshal fuel') (m_Fields model) ctx
      end
  end.

(** The body of the inner loop of [ApplyMarshalFlags] for the model at
    address [a] and its field [f].  [m.CanMarshal] and [m.CanUnmarshal]
    are read from the store as it is when the test runs. *)
Definition ApplyMarshalFlags_field (fuel : nat) (a : nat) (f : ModelField)
    (ctx : APIContext) : result APIContext :=
  if skipped f then Done ctx
  else
    let baseType :=
      if f_IsRepeated f
      then strings_Remove (strings_Remove (f_Type f) "List<") ">"
      else f_Type f in
    let* m1 := deref ctx (Some a) in
    let* ctx :=
      (if m_CanMarshal m1
       then enableMarshal fuel (modelLookup ctx !! baseType) ctx
       else Done ctx) in
    let* m2 := deref ctx (Some a) in
    if m_CanUnmarshal m2 then
      match modelLookup ctx !! baseType with
      | None => Fatal (could_not_find baseType (f_Name f))
      | Some m' => enableUnmarshal fuel (Some m') ctx
      end
    else Done ctx.

Fixpoint ApplyMarshalFlags_fields (fuel : nat) (a : nat)
    (fields : list ModelField) (ctx : APIContext) : result APIContext :=
  match fields with
  | [] => Done ctx
  | f :: rest =>
      let* ctx := ApplyMarshalFlags_field fuel a f ctx in
      ApplyMarshalFlags_fields fuel a rest ctx
  end.

Fixpoint ApplyMarshalFlags_models (fuel : nat) (ms : list nat)
    (ctx : APIContext) : result APIContext :=
  match ms with
  | [] => Done ctx
  | a :: rest =>
      let* m := deref ctx (Some a) in
      let* ctx := ApplyMarshalFlags_fields fuel a (m_Fields m) ctx in
      ApplyMarshalFlags_models fuel rest ctx
  end.

Definition ApplyMarshalFlags (fuel : nat) (ctx : APIContext) : result APIContext :=
  ApplyMarshalFlags_models fuel (Models ctx) ctx.

(** ** The parts of Go's [path] package the Import Resolver uses *)

(** One path element pushed on the elements kept so far ([out], last
    element first), as [path.Clean] processes it: empty and "." elements
    vanish, ".." removes the element before it when there is one to
    remove, is dropped at the root, and is kept otherwise. *)
Definition clean_step (rooted : bool) (out : list string) (c : string) : list string :=
  if String.eqb c EmptyString || String.eqb c "." then out
  else if String.eqb c ".." then
    match out with
    | top :: below => if String.eqb top ".." then c :: out else below
    | [] => if rooted then out else [c]
    end
  else c :: out.

(** [path.Clean]: the shortest path equivalent to [p] by the lexical
    rules of the package documentation. *)
Definition path_Clean (p : string) : string :=
  let rooted := strings_HasPrefix p "/" in
  let out := fold_left (clean_step rooted) (strings_Split p "/") [] in
  let body := strings_Join (rev out) "/" in
  let cleaned := if rooted then "/" +:+ body else body in
  if String.eqb cleaned EmptyString then "." else cleaned.

(** [path.Dir]: everything up to and including the final slash, cleaned. *)
Definition path_Dir (p : string) : string :=
  let parts := strings_Split p "/" in
  path_Clean (strings_Join (map (fun c => c +:+ "/") (removelast parts)) EmptyString).

(** [path.Join] of two elements. *)
Definition path_Join (a b : string) : string :=
  if String.eqb a EmptyString then (if String.eqb b EmptyString then EmptyString else path_Clean b)
  else path_Clean (a +:+ "/" +:+ b).

(** [os.PathSeparator] on the platforms protoc plugins are built for. *)
Definition os_PathSeparator : ascii := "/"%char.

Section Generator.

(** [dartFilename] is defined in another file of the package; the Import
    Resolver only passes its result to [path.Join]. *)
Variable dartFilename : string -> string.

(** ** Import Resolver *)

(** The loop over [sourceComponents]: the import path and
    [distanceFromRoot], which starts at the number of components and so
    never drops below zero. *)
Fixpoint trim_components (sourceComponents : list string)
    (importPath : string) (distanceFromRoot : nat) : string * nat :=
  match sourceComponents with
  | [] => (importPath, distanceFromRoot)
  | pathComponent :: rest =>
      if strings_HasPrefix importPath pathComponent
      then trim_components rest
             (strings_TrimPrefix importPath pathComponent)
             (distanceFromRoot - 1)
      else trim_components rest importPath distanceFromRoot
  end.

(** [for i := 0; i < distanceFromRoot; i++ { fullPath = path.Join("..", fullPath) }] *)
Fixpoint climb (distanceFromRoot : nat) (fullPath : string) : string :=
  match distanceFromRoot with
  | O => fullPath
  | S n => climb n (path_Join ".." fullPath)
  end.

(** The body of the loop over [d.Dependency] for a dependency that is
    not the timestamp schema; [*d.Name] panics on a nil name. *)
Definition dependency_import (d : FileDescriptorProto) (dep : string)
  : result Import :=
  let importPath := path_Dir dep in
  match file_Name d with
  | None => Panicked NilDereference
  | Some name =>
      let sourceDir := path_Dir name in
      let sourceComponents := strings_Split sourceDir os_PathSeparator in
      let distanceFromRoot := length sourceComponents in
      let '(importPath, distanceFromRoot) :=
        trim_components sourceComponents importPath distanceFromRoot in
      let fileName := dartFilename dep in
      let fullPath := path_Join importPath fileName in
      Done {| Path := climb distanceFromRoot fullPath |}
  end.

Fixpoint ApplyImports_deps (d : FileDescriptorProto) (dependency : list string)
    (deps : list Import) : result (list Import) :=
  match dependency with
  | [] => Done deps
  | dep :: rest =>
      if String.eqb dep "google/protobuf/timestamp.proto"
      then ApplyImports_deps d rest deps
      else
        let* i := dependency_import d dep in
        ApplyImports_deps d rest (deps ++ [i])
  end.

Definition ApplyImports (d : FileDescriptorProto) (ctx : APIContext)
  : result APIContext :=
  let deps := [] in
  let deps :=
    if (0 <? length (Services ctx))%nat
    then (deps ++ [ {| Path := "dart:async" |} ])
           ++ [ {| Path := "package:http/http.dart" |} ]
    else deps in
  let deps := deps ++ [ {| Path := "dart:convert" |} ] in
  let deps :=
    deps ++ [ {| Path := strings_Remove (GetName d) ".proto" +:+ ".pb.dart" |} ] in
  let* deps := ApplyImports_deps d (file_Dependency d) deps in
  Done {| store := store ctx; Models := Models ctx; Services := Services ctx;
          Imports := deps; modelLookup := modelLookup ctx |}.

(** ** Model Builder, Service Builder and Context Aggregator *)

Fixpoint build_fields (m : DescriptorProto) (d : FileDescriptorProto)
    (fs : list FieldDescriptorProto) (acc : list ModelField)
  : result (list ModelField) :=
  match fs with
  | [] => Done acc
  | f :: rest =>
      let* field := newField f m d in
      build_fields m d rest (acc ++ [field])
  end.

(** The loop over [d.GetMessageType()]. *)
Fixpoint build_models (d : FileDescriptorProto) (ms : list DescriptorProto)
    (ctx : APIContext) : result APIContext :=
  match ms with
  | [] => Done ctx
  | m :: rest =>
      let* fields := build_fields m d (md_Field m) [] in
      let '(model, ctx) :=
        new_Model {| m_Name := md_Name m; m_Primitive := false;
                     m_Fields := fields; m_CanMarshal := false;
                     m_CanUnmarshal := false |} ctx in
      let* ctx := AddModel (Some model) ctx in
      build_models d rest ctx
  end.

(** [strings.ToLower(s[0:1]) + s[1:]]; the slice panics on an empty [s]. *)
Definition lower_first (s : string) : result string :=
  match s with
  | EmptyString => Panicked SliceBoundsOutOfRange
  | String c tl => Done (strings_ToLower (String c EmptyString) +:+ tl)
  end.

Definition build_method (m : MethodDescriptorProto) : result ServiceMethod :=
  let methodPath := mth_Name m in
  let* methodName := lower_first methodPath in
  let in_ := removePkg (mth_InputType m) in
  let* arg := lower_first in_ in
  Done {| sm_Name := methodName; sm_Path := methodPath; sm_InputArg := arg;
          sm_InputType := in_; sm_OutputType := removePkg (mth_OutputType m) |}.

Fixpoint build_methods (ms : list MethodDescriptorProto) (acc : list ServiceMethod)
  : result (list ServiceMethod) :=
  match ms with
  | [] => Done acc
  | m :: rest =>
      let* method := build_method m in
      build_methods rest (acc ++ [method])
  end.

(** The loop over [d.GetService()]. *)
Fixpoint build_services (pkg : string) (ss : list ServiceDescriptorProto)
    (ctx : APIContext) : result APIContext :=
  match ss with
  | [] => Done ctx
  | s :: rest =>
      let* methods := build_methods (sd_Method s) [] in
      let service := {| s_Name := sd_Name s; s_Package := pkg; s_Methods := methods |} in
      build_services pkg rest
        {| store := store ctx; Models := Models ctx;
           Services := Services ctx ++ [service];
           Imports := Imports ctx; modelLookup := modelLookup ctx |}
  end.

(** The three nested loops that seed the flags from the RPC surface:
    over the methods of a service, over the services, over the models. *)
Fixpoint seed_methods (a : nat) (sms : list ServiceMethod) (ctx : APIContext)
  : result APIContext :=
  match sms with
  | [] => Done ctx
  | sm :: rest =>
      let* m := deref ctx (Some a) in
      let ctx := if String.eqb (m_Name m) (sm_InputType sm)
                 then write_CanMarshal a ctx else ctx in
      let* m := deref ctx (Some a) in
      let ctx := if String.eqb (m_Name m) (sm_OutputType sm)
                 then write_CanUnmarshal a ctx else ctx in
      seed_methods a rest ctx
  end.

Fixpoint seed_services (a : nat) (ss : list Service) (ctx : APIContext)
  : result APIContext :=
  match ss with
  | [] => Done ctx
  | s :: rest =>
      let* ctx := seed_methods a (s_Methods s) ctx in
      seed_services a rest ctx
  end.

Fixpoint seed_models (ms : list nat) (ctx : APIContext) : result APIContext :=
  match ms with
  | [] => Done ctx
  | a :: rest =>
      let* ctx := seed_services a (Services ctx) ctx in
      seed_models rest ctx
  end.

(** [CreateClientAPI] up to the point where the context is complete and
    handed to the template: models, services, seeding of the flags, the
    synthetic Date model, imports.  The call of [ApplyMarshalFlags] is
    commented out in the source and so is absent here. *)
Definition CreateClientAPI (d : FileDescriptorProto) : result APIContext :=
  let ctx := NewAPIContext in
  let pkg := file_Package d in
  let* ctx := build_models d (file_MessageType d) ctx in
  let* ctx := build_services pkg (file_Service d) ctx in
  let* ctx := seed_models (Models ctx) ctx in
  let '(date, ctx) :=
    new_Model {| m_Name := "Date"; m_Primitive := true; m_Fields := [];
                 m_CanMarshal := false; m_CanUnmarshal := false |} ctx in
  let* ctx := AddModel (Some date) ctx in
  ApplyImports d ctx.

End Generator.

(** * Definitions used by the statements *)

(** ** The specification's wording, for comparison with the code *)

(** What [camelCase] makes of a part that is not the first: its initial
    upper-cased, its remainder lower-cased. *)
Definition capitalize (p : string) : string :=
  match p with
  | EmptyString => EmptyString
  | String c tl => String (upper_ascii c) (strings_ToLower tl)
  end.

(** The conversion as the specification words it: the first segment
    lower-cased, the initial of every other segment upper-cased, the
    segments concatenated. *)
Definition upper_initial (p : string) : string :=
  match p with
  | EmptyString => EmptyString
  | String c tl => String (upper_ascii c) tl
  end.

Definition camelCase_spec (s : string) : string :=
  match strings_Split s "_" with
  | [] => EmptyString
  | first :: rest => strings_ToLower first +:+ strings_Join (map upper_initial rest) EmptyString
  end.

Fixpoint has_slash (s : string) : bool :=
  match s with
  | EmptyString => false
  | String c r => Ascii.eqb c "/" || has_slash r
  end.


Definition transport_imports : list Import :=
  [ {| Path := "dart:async" |}; {| Path := "package:http/http.dart" |} ].

Definition encoding_import : Import := {| Path := "dart:convert" |}.

(** The own-binding import the code computes. *)
Definition own_binding_import (d : FileDescriptorProto) : Import :=
  {| Path := strings_Remove (GetName d) ".proto" +:+ ".pb.dart" |}.

(** The head of the import list the code computes: the transport
    imports are there when the file declares a service. *)
Definition imports_header (d : FileDescriptorProto) : list Import :=
  match file_Service d with
  | [] => []
  | _ :: _ => transport_imports
  end ++ [encoding_import; own_binding_import d].


(** A name is the input (output) type of some method of the context. *)
Definition is_input (ctx : APIContext) (name : string) : Prop :=
  exists s sm, s ∈ Services ctx /\ sm ∈ s_Methods s /\ sm_InputType sm = name.

Definition is_output (ctx : APIContext) (name : string) : Prop :=
  exists s sm, s ∈ Services ctx /\ sm ∈ s_Methods s /\ sm_OutputType sm = name.

Definition is_inputb (svcs : list Service) (name : string) : bool :=
  existsb (fun s => existsb (fun sm => String.eqb name (sm_InputType sm)) (s_Methods s)) svcs.

Definition is_outputb (svcs : list Service) (name : string) : bool :=
  existsb (fun s => existsb (fun sm => String.eqb name (sm_OutputType sm)) (s_Methods s)) svcs.

(** [ctx'] differs from [ctx] in flags of the model at [a] only, which
    have grown by [i] (CanMarshal) and [o] (CanUnmarshal). *)
Definition flags_grown_at (a : nat) (i o : bool) (ctx ctx' : APIContext) : Prop :=
  Models ctx' = Models ctx /\ Services ctx' = Services ctx /\
  Imports ctx' = Imports ctx /\ modelLookup ctx' = modelLookup ctx /\
  length (store ctx') = length (store ctx) /\
  (forall q, q <> a -> store ctx' !! q = store ctx !! q) /\
  (forall m, store ctx !! a = Some m ->
     exists m', store ctx' !! a = Some m' /\
       m_Name m' = m_Name m /\ m_Primitive m' = m_Primitive m /\
       m_Fields m' = m_Fields m /\
       m_CanMarshal m' = m_CanMarshal m || i /\
       m_CanUnmarshal m' = m_CanUnmarshal m || o).

Definition unflagged (m : Model) : Prop :=
  m_CanMarshal m = false /\ m_CanUnmarshal m = false.

(** The flags of the model at address [p] are exactly the seeds of the
    RPC surface. *)
Definition seeded_exactly (ctx : APIContext) (p : nat) : Prop :=
  exists m,
    store ctx !! p = Some m /\
    (m_CanMarshal m = true <-> is_input ctx (m_Name m)) /\
    (m_CanUnmarshal m = true <-> is_output ctx (m_Name m)).

(** The invariant of a map field, which the loop of [newField] keeps. *)
Definition map_invariant (field : ModelField) : Prop :=
  f_IsMap field = true ->
  exists k v,
    f_MapKeyField field = Some k /\ f_MapValueField field = Some v /\
    f_Type field = "Map<" +:+ f_Type k +:+ "," +:+ f_Type v +:+ ">".

(** A binding file name that is one plain path element. *)
Definition plain_file_name (name : string) : bool :=
  negb (String.eqb name EmptyString) && negb (String.eqb name ".")
  && negb (String.eqb name "..") && negb (has_slash name).

(** Two contexts with the same reference graph: the same lookup table
    and, address by address, the same fields. *)
Definition same_graph (c1 c2 : APIContext) : Prop :=
  modelLookup c1 = modelLookup c2 /\
  m_Fields <$> store c1 = m_Fields <$> store c2.

(** The model at [a] has a field, not skipped by the closure, whose type
    the lookup table resolves to the model at [b]. *)
Definition references (ctx : APIContext) (a b : nat) : Prop :=
  exists fields f,
    (m_Fields <$> store ctx) !! a = Some fields /\ f ∈ fields /\
    skipped f = false /\ modelLookup ctx !! f_Type f = Some b.

(** ** Sample inputs *)

(** A stand-in for [dartFilename], used to run the samples only: the last
    path element with ".proto" removed and ".pb.dart" appended. *)
Definition sample_dartFilename (dep : string) : string :=
  strings_Remove (List.last (strings_Split dep "/") EmptyString) ".proto" +:+ ".pb.dart".

Definition scalar_field (t : FieldDescriptorProto_Type) : FieldDescriptorProto :=
  {| fd_Name := "n"; fd_Type := t; fd_TypeName := EmptyString; fd_Label := Some LABEL_OPTIONAL |}.

Definition message_field (name type_name : string)
    (label : FieldDescriptorProto_Label) : FieldDescriptorProto :=
  {| fd_Name := name; fd_Type := TYPE_MESSAGE; fd_TypeName := type_name;
     fd_Label := Some label |}.

Definition message (name : string) (fields : list FieldDescriptorProto)
  : DescriptorProto :=
  Build_DescriptorProto name fields [] false.

(** A file of package pkg with one service Svc of one method Call. *)
Definition rpc_file (name : string) (messages : list DescriptorProto)
    (input output : string) (dependency : list string) : FileDescriptorProto :=
  {| file_Name := Some name; file_Package := "pkg";
     file_MessageType := messages;
     file_Service :=
       [ {| sd_Name := "Svc";
            sd_Method := [ {| mth_Name := "Call"; mth_InputType := input;
                              mth_OutputType := output |} ] |} ];
     file_Dependency := dependency |}.

(** message A { B b = 1; }  message B { A a = 1; }  message E {}
    rpc Call(A) returns (E) *)
Definition cyclic_file : FileDescriptorProto :=
  rpc_file "cyc.proto"
    [ message "A" [message_field "b" ".pkg.B" LABEL_OPTIONAL];
      message "B" [message_field "a" ".pkg.A" LABEL_OPTIONAL];
      message "E" [] ]
    ".pkg.A" ".pkg.E" [].

Definition reference_to (name json : string) : ModelField :=
  {| f_Name := name; f_Type := json; f_InternalType := json; f_JSONName := name;
     f_JSONType := json +:+ "JSON"; f_IsMessage := true; f_IsRepeated := false;
     f_IsMap := false; f_MapKeyField := None; f_MapValueField := None |}.

Definition Svc_Call (arg input output : string) : Service :=
  {| s_Name := "Svc"; s_Package := "pkg";
     s_Methods := [ {| sm_Name := "call"; sm_Path := "Call"; sm_InputArg := arg;
                       sm_InputType := input; sm_OutputType := output |} ] |}.

(** The context of [cyclic_file], with the CanMarshal flags of A and B
    left open. *)
Definition cyclic_ctx (marshalA marshalB : bool) : APIContext :=
  {| store :=
       [ {| m_Name := "A"; m_Primitive := false;
            m_Fields := [reference_to "b" "B"];
            m_CanMarshal := marshalA; m_CanUnmarshal := false |};
         {| m_Name := "B"; m_Primitive := false;
            m_Fields := [reference_to "a" "A"];
            m_CanMarshal := marshalB; m_CanUnmarshal := false |};
         {| m_Name := "E"; m_Primitive := false; m_Fields := [];
            m_CanMarshal := false; m_CanUnmarshal := true |};
         {| m_Name := "Date"; m_Primitive := true; m_Fields := [];
            m_CanMarshal := false; m_CanUnmarshal := false |} ];
     Models := [0; 1; 2; 3]%nat;
     Services := [Svc_Call "a" "A" "E"];
     Imports := transport_imports
                ++ [encoding_import; {| Path := "cyc.pb.dart" |}];
     modelLookup := <["Date" := 3%nat]> (<["E" := 2%nat]> (<["B" := 1%nat]>
                      (<["A" := 0%nat]> ∅))) |}.

(** message A { B b = 1; }  message B {}  rpc Call(A) returns (A) *)
Definition chain_file : FileDescriptorProto :=
  rpc_file "chain.proto"
    [ message "A" [message_field "b" ".pkg.B" LABEL_OPTIONAL]; message "B" [] ]
    ".pkg.A" ".pkg.A" [].

(** message M { common.Other x = 1; }  message Ack {}, with Other
    declared in the imported common.proto;  rpc Call(M) returns (Ack),
    and the same with input and output exchanged. *)
Definition imported_type_messages : list DescriptorProto :=
  [ message "M" [message_field "x" ".common.Other" LABEL_OPTIONAL];
    message "Ack" [] ].

Definition imported_type_in_file : FileDescriptorProto :=
  rpc_file "m.proto" imported_type_messages ".pkg.M" ".pkg.Ack" ["common.proto"].

Definition imported_type_out_file : FileDescriptorProto :=
  rpc_file "m.proto" imported_type_messages ".pkg.Ack" ".pkg.M" ["common.proto"].

(** message A { B b = 1; }  message B { repeated C cs = 1; }  message C {}
    rpc Call(A) returns (C), and rpc Call(B) returns (C) *)
Definition nested_list_messages : list DescriptorProto :=
  [ message "A" [message_field "b" ".pkg.B" LABEL_OPTIONAL];
    message "B" [message_field "cs" ".pkg.C" LABEL_REPEATED];
    message "C" [] ].

Definition list_at_depth_file : FileDescriptorProto :=
  rpc_file "n.proto" nested_list_messages ".pkg.A" ".pkg.C" [].

Definition list_at_top_file : FileDescriptorProto :=
  rpc_file "n.proto" nested_list_messages ".pkg.B" ".pkg.C" [].

(** message Event { repeated google.protobuf.Timestamp stamps = 1; }
    message Query {}  rpc Call(Query) returns (Event) *)
Definition stamps_field : FieldDescriptorProto :=
  message_field "stamps" ".google.protobuf.Timestamp" LABEL_REPEATED.

Definition stamps_file : FileDescriptorProto :=
  rpc_file "ev.proto"
    [ message "Event" [stamps_field]; message "Query" [] ]
    ".pkg.Query" ".pkg.Event" ["google/protobuf/timestamp.proto"].

(** message Reply {}  rpc Call(common.Date) returns (Reply), with Date
    declared in the imported common.proto. *)
Definition imported_date_file : FileDescriptorProto :=
  rpc_file "r.proto" [ message "Reply" [] ] ".common.Date" ".pkg.Reply"
    ["common.proto"].


(** message Item { string id = 1; map<string, int32> tags = 2; } *)
Definition tags_field : FieldDescriptorProto :=
  message_field "tags" ".pkg.Item.TagsEntry" LABEL_REPEATED.

Definition Item : DescriptorProto :=
  Build_DescriptorProto "Item"
    [ {| fd_Name := "id"; fd_Type := TYPE_STRING; fd_TypeName := EmptyString;
         fd_Label := Some LABEL_OPTIONAL |};
      tags_field ]
    [ Build_DescriptorProto "TagsEntry"
        [ {| fd_Name := "key"; fd_Type := TYPE_STRING; fd_TypeName := EmptyString;
             fd_Label := Some LABEL_OPTIONAL |};
          {| fd_Name := "value"; fd_Type := TYPE_INT32; fd_TypeName := EmptyString;
             fd_Label := Some LABEL_OPTIONAL |} ]
        [] true ]
    false.

Definition item_file : FileDescriptorProto :=
  rpc_file "item.proto" [Item] ".pkg.Item" ".pkg.Item" [].

Definition plain_model_field (name type_ json : string) : ModelField :=
  {| f_Name := name; f_Type := type_; f_InternalType := type_;
     f_JSONName := name; f_JSONType := json; f_IsMessage := false;
     f_IsRepeated := false; f_IsMap := false;
     f_MapKeyField := None; f_MapValueField := None |}.

(** What [newField] returns for [tags_field]. *)
Definition tags_model_field : ModelField :=
  {| f_Name := "tags"; f_Type := "Map<String,int>"; f_InternalType := "TagsEntry";
     f_JSONName := "tags"; f_JSONType := "TagsEntryJSON[]";
     f_IsMessage := true; f_IsRepeated := true; f_IsMap := true;
     f_MapKeyField := Some (plain_model_field "key" "String" "string");
     f_MapValueField := Some (plain_model_field "value" "int" "number") |}.

(** The schema file and dependency of the relative-path example. *)
Definition relative_file : FileDescriptorProto :=
  rpc_file "a/b/file.proto" [ message "Ack" [] ] ".pkg.Ack" ".pkg.Ack"
    ["a/c/dep.proto"].

(** * The rest of the file: template helpers, and what the further
      statements need *)

(** [s[0 : len(s)-2]]; the slice panics on a string shorter than two
    bytes. *)
Definition drop_last_two (s : string) : result string :=
  if (String.length s <? 2)%nat then Panicked SliceBoundsOutOfRange
  else Done (substring 0 (String.length s - 2) s).

(** [stringify]; the [fmt.Sprintf] calls are written out as
    concatenations. *)
Definition stringify (f : ModelField) : result string :=
  let rest :=
    if String.eqb (f_Type f) "Date"
    then Done ("m." +:+ f_Name f +:+ ".toISOString()")
    else if f_IsMessage f
    then Done (f_Type f +:+ "ToJSON(m." +:+ f_Name f +:+ ")")
    else Done ("m." +:+ f_Name f) in
  if f_IsRepeated f then
    let* singularType := drop_last_two (f_Type f) in
    if String.eqb (f_Type f) "Date"
    then Done ("m." +:+ f_Name f +:+ ".map((n) => n.toISOString())")
    else if f_IsMessage f
    then Done ("m." +:+ f_Name f +:+ ".map(" +:+ singularType +:+ "ToJSON)")
    else rest
  else rest.

(** [parse]; [strings.Compare(a, b) == 0] is equality of the strings. *)
Definition parse (f : ModelField) (modelName : string) : result string :=
  let field :=
    "(((m as " +:+ modelName +:+ ")." +:+ f_Name f +:+ ") ? (m as "
    +:+ modelName +:+ ")." +:+ f_Name f +:+ " : (m as " +:+ modelName
    +:+ "JSON)." +:+ f_JSONName f +:+ ")" in
  let field :=
    if String.eqb (f_Name f) (f_JSONName f) then "m." +:+ f_Name f else field in
  let rest :=
    if String.eqb (f_Type f) "Date"
    then Done ("Date(" +:+ field +:+ ")")
    else if f_IsMessage f
    then Done ("JSONTo" +:+ f_Type f +:+ "(" +:+ field +:+ ")")
    else Done field in
  if f_IsRepeated f then
    let* singularType := drop_last_two (f_Type f) in
    if String.eqb (f_Type f) "Date"
    then Done (field +:+ ".map((n) => Date(n))")
    else if f_IsMessage f
    then Done (field +:+ ".map(JSONTo" +:+ singularType +:+ ")")
    else rest
  else rest.

(** The byte [c] occurs in [s]. *)
Fixpoint has_byte (c : ascii) (s : string) : bool :=
  match s with
  | EmptyString => false
  | String a r => Ascii.eqb a c || has_byte c r
  end.

(** The descriptor of the same field, not repeated. *)
Definition clear_label (f : FieldDescriptorProto) : FieldDescriptorProto :=
  {| fd_Name := fd_Name f; fd_Type := fd_Type f; fd_TypeName := fd_TypeName f;
     fd_Label := None |}.

(** The model at [a] has its CanMarshal (CanUnmarshal) flag. *)
Definition marshal_marked (ctx : APIContext) (a : nat) : Prop :=
  exists m, store ctx !! a = Some m /\ m_CanMarshal m = true.

Definition unmarshal_marked (ctx : APIContext) (a : nat) : Prop :=
  exists m, store ctx !! a = Some m /\ m_CanUnmarshal m = true.

(** [b] is reached from [a] along fields the closure follows. *)
Definition reachable (ctx : APIContext) : nat -> nat -> Prop :=
  rtc (references ctx).

(** [rank] decreases along every reference: the graph has no cycle. *)
Definition ranked (rank : nat -> nat) (ctx : APIContext) : Prop :=
  forall a b, references ctx a b -> rank b < rank a.

(** Between [ctx] and [ctx'] nothing changed but flags, and none of
    them was reset. *)
Definition flags_only_grow (ctx ctx' : APIContext) : Prop :=
  Models ctx' = Models ctx /\ Services ctx' = Services ctx /\
  Imports ctx' = Imports ctx /\ modelLookup ctx' = modelLookup ctx /\
  length (store ctx') = length (store ctx) /\
  forall a m, store ctx !! a = Some m ->
    exists m', store ctx' !! a = Some m' /\
      m_Name m' = m_Name m /\ m_Primitive m' = m_Primitive m /\
      m_Fields m' = m_Fields m /\
      (m_CanMarshal m = true -> m_CanMarshal m' = true) /\
      (m_CanUnmarshal m = true -> m_CanUnmarshal m' = true).

(** Every entry of the lookup table leads to a model of that name, and
    every model is found under its name. *)
Definition lookup_sound (ctx : APIContext) : Prop :=
  forall name a, modelLookup ctx !! name = Some a ->
    exists m, store ctx !! a = Some m /\ m_Name m = name.

Definition lookup_complete (ctx : APIContext) : Prop :=
  forall a m, store ctx !! a = Some m -> is_Some (modelLookup ctx !! m_Name m).

(** A service and its descriptor, a method and its descriptor. *)
Definition method_of (m : MethodDescriptorProto) (sm : ServiceMethod) : Prop :=
  build_method m = Done sm.

Definition service_of (pkg : string) (s : ServiceDescriptorProto) (svc : Service) : Prop :=
  s_Name svc = sd_Name s /\ s_Package svc = pkg /\
  Forall2 method_of (sd_Method s) (s_Methods svc).

(** A model and the message it was built from. *)
Definition model_of (d : FileDescriptorProto) (msg : DescriptorProto) (model : Model) : Prop :=
  m_Name model = md_Name msg /\ m_Primitive model = false /\
  Forall2 (fun f field => newField f msg d = Done field) (md_Field msg) (m_Fields model).

(** The dependencies that get an import. *)
Definition imported_dependencies (d : FileDescriptorProto) : list string :=
  List.filter (fun dep => negb (String.eqb dep "google/protobuf/timestamp.proto"))
    (file_Dependency d).

(** The header of the import list for a context, as [ApplyImports]
    computes it from the services of the context. *)
Definition imports_header_of (ctx : APIContext) (d : FileDescriptorProto) : list Import :=
  (if (0 <? length (Services ctx))%nat then transport_imports else [])
  ++ [encoding_import; own_binding_import d].

(** The synthetic model [CreateClientAPI] appends. *)
Definition Date_model : Model :=
  {| m_Name := "Date"; m_Primitive := true; m_Fields := [];
     m_CanMarshal := false; m_CanUnmarshal := false |}.

(** A context of two models, A with a field of type B and B without
    fields, and the synthetic Date; the CanMarshal flags are left open. *)
Definition chain_ctx (marshalA marshalB : bool) : APIContext :=
  {| store :=
       [ {| m_Name := "A"; m_Primitive := false;
            m_Fields := [reference_to "b" "B"];
            m_CanMarshal := marshalA; m_CanUnmarshal := false |};
         {| m_Name := "B"; m_Primitive := false; m_Fields := [];
            m_CanMarshal := marshalB; m_CanUnmarshal := false |};
         {| m_Name := "Date"; m_Primitive := true; m_Fields := [];
            m_CanMarshal := false; m_CanUnmarshal := false |} ];
     Models := [0; 1; 2]%nat;
     Services := [];
     Imports := [];
     modelLookup := <["Date" := 2%nat]> (<["B" := 1%nat]> (<["A" := 0%nat]> ∅)) |}.

(** * Properties *)

(** ** Type Mapper *)

Lemma protoToDartType_listed_integer_kinds (f : FieldDescriptorProto) :
  In (fd_Type f) [TYPE_FIXED32; TYPE_FIXED64; TYPE_INT32; TYPE_INT64] ->
  protoToDartType f =
    if isRepeated f then ("List<int>", "int", "number[]") else ("int", "int", "number").
Proof.
  unfold protoToDartType.
  intros [H | [H | [H | [H | []]]]]; rewrite <- H; destruct (isRepeated f); reflexivity.
Qed.

(** C6: the unsigned, zig-zag and signed-fixed integer kinds are not
    cases of the switch of [protoToDartType]; a field of one of them gets
    the defaults, the string type with the string wire type, where the
    claim has the integer type with the numeric wire type. *)
Theorem protoToDartType_unlisted_integer_kinds_are_String :
  Forall (fun t => protoToDartType (scalar_field t) = ("String", "String", "string"))
    [TYPE_UINT32; TYPE_UINT64; TYPE_SINT32; TYPE_SINT64; TYPE_SFIXED32; TYPE_SFIXED64].
Proof. repeat constructor. Qed.

Lemma protoToDartType_timestamp (f : FieldDescriptorProto) :
  fd_Type f = TYPE_MESSAGE ->
  fd_TypeName f = ".google.protobuf.Timestamp" ->
  protoToDartType f =
    if isRepeated f then ("List<DateTime>", "DateTime", "string[]")
    else ("DateTime", "DateTime", "string").
Proof.
  intros Ht Hn. unfold protoToDartType. rewrite Ht, Hn.
  destruct (isRepeated f); reflexivity.
Qed.

(** ** camelCase *)

Lemma append_empty_r (p : string) : p +:+ EmptyString = p.
Proof. induction p as [| c p IH]; simpl; [reflexivity | now rewrite IH]. Qed.

Lemma strings_Join_empty_sep (p : string) (ps : list string) :
  strings_Join (p :: ps) EmptyString = p +:+ strings_Join ps EmptyString.
Proof.
  destruct ps as [| q qs]; simpl; [now rewrite append_empty_r | reflexivity].
Qed.

Lemma camelCase_loop_rest (todo done : list string) (h : string) :
  Forall (fun p => p <> EmptyString) todo ->
  camelCase_loop (S (length done)) todo ((h :: done) ++ todo)
  = Done ((h :: done) ++ map capitalize todo).
Proof.
  revert done. induction todo as [| p rest IH]; intros done Hne.
  - reflexivity.
  - inversion Hne as [| ? ? Hp Hrest]; subst.
    destruct p as [| c tl]; [congruence |].
    cbn [camelCase_loop Nat.eqb].
    replace (S (length done)) with (length (h :: done) + 0)%nat
      by (simpl; lia).
    rewrite insert_app_r. cbn [map].
    replace (length (h :: done) + 0)%nat
      with (length (done ++ [capitalize (String c tl)])).
    2:{ rewrite length_app. simpl. lia. }
    specialize (IH (done ++ [capitalize (String c tl)]) Hrest).
    simpl in *. rewrite <- !app_assoc in *. simpl in *. exact IH.
Qed.

(** C8, as the code has it: the first segment is kept as it is, every
    other segment gets its initial upper-cased and its remainder
    lower-cased, and the segments are concatenated; this for a name none
    of whose segments after the first is empty. *)
Theorem camelCase_keeps_first_capitalizes_rest (s first : string) (rest : list string) :
  strings_Split s "_" = first :: rest ->
  Forall (fun p => p <> EmptyString) rest ->
  camelCase s = Done (first +:+ strings_Join (map capitalize rest) EmptyString).
Proof.
  intros Hsplit Hne. unfold camelCase. rewrite Hsplit.
  pose proof (camelCase_loop_rest rest [] first Hne) as Hloop.
  simpl in Hloop. cbn [camelCase_loop Nat.eqb]. simpl insert. rewrite Hloop.
  cbn [bind]. now rewrite strings_Join_empty_sep.
Qed.

Lemma camelCase_keeps_first_capitalizes_rest_witness :
  camelCase "Foo_bar_bAZ" = Done "FooBarBaz".
Proof.
  apply (camelCase_keeps_first_capitalizes_rest "Foo_bar_bAZ" "Foo" ["bar"; "bAZ"]).
  - reflexivity.
  - repeat constructor; discriminate.
Defined.

(** C8, as stated, fails: the code does not
    lower-case the first segment. *)
Lemma camelCase_first_segment_not_lowered :
  camelCase "Foo_bar" = Done "FooBar" /\
  camelCase_spec "Foo_bar" = "fooBar" /\
  camelCase "Foo_bar" <> Done (camelCase_spec "Foo_bar").
Proof. split; [reflexivity | split; [reflexivity | discriminate]]. Qed.

Example camelCase_lowers_the_rest_of_a_segment :
  camelCase "foo_bAR" = Done "fooBar" /\ camelCase_spec "foo_bAR" = "fooBAR".
Proof. split; reflexivity. Qed.

Example camelCase_empty_segment_panics :
  camelCase "foo__bar" = Panicked SliceBoundsOutOfRange.
Proof. reflexivity. Qed.

(** ** Field Resolver *)

Lemma newField_nested_map_invariant rec f nesteds field field' :
  map_invariant field ->
  newField_nested rec f nesteds field = Done field' ->
  map_invariant field'.
Proof.
  revert field. induction nesteds as [| nested rest IH]; intros field Hinv Hrun.
  - simpl in Hrun. injection Hrun as <-. exact Hinv.
  - simpl in Hrun.
    destruct (negb (strings_HasSuffix (fd_TypeName f) (md_Name nested))); [eauto |].
    destruct (GetMapFields nested) as [[[k v] |] | | |]; simpl in Hrun;
      try discriminate; [| eauto].
    destruct (rec k nested) as [mk | | |]; simpl in Hrun; try discriminate.
    destruct (rec v nested) as [mv | | |]; simpl in Hrun; try discriminate.
    eapply IH; [| exact Hrun].
    intros _. exists mk, mv. split; [reflexivity | split; reflexivity].
Qed.

Lemma newField_unfold f m d :
  newField f m d =
  let '(dartType, internalType, jsonType) := protoToDartType f in
  let jsonName := fd_Name f in
  let* name := camelCase jsonName in
  let field :=
    {| f_Name := name; f_Type := dartType; f_InternalType := internalType;
       f_JSONName := jsonName; f_JSONType := jsonType;
       f_IsMessage := false; f_IsRepeated := false; f_IsMap := false;
       f_MapKeyField := None; f_MapValueField := None |} in
  let* field :=
    newField_nested (fun k nested => newField k nested d) f (md_NestedType m) field in
  Done (set_kind field
          (match fd_Type f with TYPE_MESSAGE => true | _ => false end)
          (isRepeated f)).
Proof. destruct m; reflexivity. Qed.

(** C7, as the code has it: a field that [newField] marks as a map has
    its key and value sub-fields, its type is the compound Map<K,V> of
    their types, and its IsRepeated flag is what the label of its
    descriptor says, map or not. *)
Theorem newField_map_field (f : FieldDescriptorProto) (m : DescriptorProto)
    (d : FileDescriptorProto) (field : ModelField) :
  newField f m d = Done field ->
  f_IsMap field = true ->
  (exists k v,
     f_MapKeyField field = Some k /\ f_MapValueField field = Some v /\
     f_Type field = "Map<" +:+ f_Type k +:+ "," +:+ f_Type v +:+ ">") /\
  f_IsRepeated field = isRepeated f.
Proof.
  rewrite newField_unfold.
  destruct (protoToDartType f) as [[dartType internalType] jsonType].
  cbv zeta. destruct (camelCase (fd_Name f)) as [name | | |]; simpl; try discriminate.
  match goal with
  | |- context [newField_nested ?r f ?n ?f0] =>
      destruct (newField_nested r f n f0) as [field1 | | |] eqn:Hnested
  end; simpl; try discriminate.
  intros Hdone Hmap. injection Hdone as <-. simpl in *. split; [| reflexivity].
  eapply newField_nested_map_invariant; [| exact Hnested | exact Hmap].
  intros Hfalse. discriminate.
Qed.

Lemma newField_map_field_witness :
  (exists k v,
     f_MapKeyField tags_model_field = Some k /\
     f_MapValueField tags_model_field = Some v /\
     f_Type tags_model_field = "Map<" +:+ f_Type k +:+ "," +:+ f_Type v +:+ ">") /\
  f_IsRepeated tags_model_field = isRepeated tags_field.
Proof.
  apply (newField_map_field tags_field Item item_file tags_model_field);
    reflexivity.
Defined.

(** C7, as stated, fails: the field of a protobuf
    map is declared repeated, and the field [newField] builds for it is
    both a map and repeated. *)
Lemma newField_map_field_is_repeated :
  exists field,
    newField tags_field Item item_file = Done field /\
    f_IsMap field = true /\ f_IsRepeated field = true.
Proof. exists tags_model_field. repeat split. Qed.

(** ** Marshal closure *)

(** *** The closure changes flags only *)

Lemma same_graph_refl ctx : same_graph ctx ctx.
Proof. split; reflexivity. Qed.

Lemma same_graph_trans c1 c2 c3 :
  same_graph c1 c2 -> same_graph c2 c3 -> same_graph c1 c3.
Proof. intros [H1 H2] [H3 H4]. split; congruence. Qed.

Lemma alter_keeps_fields (g : Model -> Model) (a : nat) (st : list Model) :
  (forall m, m_Fields (g m) = m_Fields m) ->
  m_Fields <$> alter g a st = m_Fields <$> st.
Proof.
  intros Hg. revert a. induction st as [| m st IH]; intros [| a]; simpl;
    try reflexivity.
  - now rewrite Hg.
  - f_equal. apply IH.
Qed.

Lemma write_CanMarshal_same_graph a ctx : same_graph ctx (write_CanMarshal a ctx).
Proof.
  split; [reflexivity |]. simpl. symmetry. now apply alter_keeps_fields.
Qed.

Lemma write_CanUnmarshal_same_graph a ctx : same_graph ctx (write_CanUnmarshal a ctx).
Proof.
  split; [reflexivity |]. simpl. symmetry. now apply alter_keeps_fields.
Qed.

Lemma range_Fields_same_graph rec :
  (forall m c c', rec m c = Done c' -> same_graph c c') ->
  forall fields ctx ctx',
    range_Fields rec fields ctx = Done ctx' -> same_graph ctx ctx'.
Proof.
  intros Hrec fields. induction fields as [| f rest IH]; intros ctx ctx' Hrun;
    simpl in Hrun.
  - injection Hrun as <-. apply same_graph_refl.
  - destruct (skipped f); [now apply IH |].
    destruct (modelLookup ctx !! f_Type f) as [mm |]; [| discriminate].
    destruct (rec (Some mm) ctx) as [c1 | | |] eqn:Hcall; simpl in Hrun;
      try discriminate.
    eapply same_graph_trans; [eapply Hrec; exact Hcall | now apply IH].
Qed.

Lemma enableMarshal_same_graph fuel :
  forall m ctx ctx', enableMarshal fuel m ctx = Done ctx' -> same_graph ctx ctx'.
Proof.
  induction fuel as [| fuel IH]; intros m ctx ctx' Hrun; simpl in Hrun;
    [discriminate |].
  destruct m as [a |]; [| discriminate].
  destruct (deref ctx (Some a)) as [model | | |]; simpl in Hrun; try discriminate.
  eapply same_graph_trans; [apply (write_CanMarshal_same_graph a) |].
  eapply range_Fields_same_graph; [exact IH | exact Hrun].
Qed.

Lemma enableUnmarshal_same_graph fuel :
  forall m ctx ctx', enableUnmarshal fuel m ctx = Done ctx' -> same_graph ctx ctx'.
Proof.
  induction fuel as [| fuel IH]; intros m ctx ctx' Hrun; simpl in Hrun;
    [discriminate |].
  destruct m as [a |]; [| discriminate].
  destruct (deref ctx (Some a)) as [model | | |]; simpl in Hrun; try discriminate.
  eapply same_graph_trans; [apply (write_CanUnmarshal_same_graph a) |].
  eapply range_Fields_same_graph; [exact IH | exact Hrun].
Qed.

Lemma references_same_graph c1 c2 a b :
  same_graph c1 c2 -> references c1 a b -> references c2 a b.
Proof.
  intros [Hl Hf] (fields & f & H1 & H2 & H3 & H4).
  exists fields, f. rewrite <- Hl, <- Hf. auto.
Qed.

(** *** More fuel never changes a result other than [OutOfFuel] *)

Lemma range_Fields_fuel_mono rec rec' :
  (forall m c r, rec m c = r -> r <> OutOfFuel -> rec' m c = r) ->
  forall fields ctx r,
    range_Fields rec fields ctx = r -> r <> OutOfFuel ->
    range_Fields rec' fields ctx = r.
Proof.
  intros Hrec fields. induction fields as [| f rest IH]; intros ctx r Hrun Hr;
    simpl in *; [exact Hrun |].
  destruct (skipped f); [now apply IH |].
  destruct (modelLookup ctx !! f_Type f) as [mm |]; [| exact Hrun].
  destruct (rec (Some mm) ctx) as [c1 | d | p |] eqn:Hcall; simpl in Hrun.
  - rewrite (Hrec _ _ _ Hcall) by discriminate. simpl. now apply IH.
  - rewrite (Hrec _ _ _ Hcall) by discriminate. exact Hrun.
  - rewrite (Hrec _ _ _ Hcall) by discriminate. exact Hrun.
  - congruence.
Qed.

Lemma enableMarshal_fuel_mono fuel :
  forall m ctx r,
    enableMarshal fuel m ctx = r -> r <> OutOfFuel ->
    enableMarshal (S fuel) m ctx = r.
Proof.
  induction fuel as [| fuel IH]; intros m ctx r Hrun Hr;
    [simpl in Hrun; congruence |].
  change (enableMarshal (S (S fuel)) m ctx) with
    (match m with
     | None => Panicked NilDereference
     | Some a =>
         let* model := deref ctx m in
         range_Fields (enableMarshal (S fuel)) (m_Fields model) (write_CanMarshal a ctx)
     end).
  simpl in Hrun. destruct m as [a |]; [| exact Hrun].
  destruct (deref ctx (Some a)) as [model | | |]; simpl in *; try exact Hrun.
  eapply range_Fields_fuel_mono; [exact IH | exact Hrun | exact Hr].
Qed.

(** *** A reference cycle *)

Lemma range_Fields_never_returns rec fields :
  (forall m c c', rec m c = Done c' -> same_graph c c') ->
  forall ctx f b,
    (forall c, same_graph ctx c -> forall c', rec (Some b) c <> Done c') ->
    f ∈ fields -> skipped f = false -> modelLookup ctx !! f_Type f = Some b ->
    forall ctx', range_Fields rec fields ctx <> Done ctx'.
Proof.
  intros Hrec. induction fields as [| g rest IH];
    intros ctx f b Hb Hin Hskip Hlook ctx' Hrun.
  - inversion Hin.
  - simpl in Hrun. apply elem_of_cons in Hin as [<- | Hin].
    + rewrite Hskip, Hlook in Hrun.
      destruct (rec (Some b) ctx) as [c1 | | |] eqn:Hcall; simpl in Hrun;
        try discriminate.
      exact (Hb ctx (same_graph_refl ctx) c1 Hcall).
    + destruct (skipped g).
      { exact (IH ctx f b Hb Hin Hskip Hlook ctx' Hrun). }
      destruct (modelLookup ctx !! f_Type g) as [mm |]; [| discriminate].
      destruct (rec (Some mm) ctx) as [c1 | | |] eqn:Hcall; simpl in Hrun;
        try discriminate.
      pose proof (Hrec _ _ _ Hcall) as Hsame.
      refine (IH c1 f b _ Hin Hskip _ ctx' Hrun).
      * intros c Hc. apply Hb. eapply same_graph_trans; eassumption.
      * destruct Hsame as [<- _]. exact Hlook.
Qed.

(** Two models that reference each other: [enableMarshal] on either of
    them returns for no amount of fuel. *)
Lemma enableMarshal_cycle_never_returns fuel :
  forall ctx a b,
    references ctx a b -> references ctx b a ->
    forall ctx', enableMarshal fuel (Some a) ctx <> Done ctx'.
Proof.
  induction fuel as [| fuel IH]; intros ctx a b Hab Hba ctx' Hrun;
    simpl in Hrun; [discriminate |].
  pose proof Hab as (fields & f & Hfields & Hin & Hskip & Hlook).
  rewrite list_lookup_fmap in Hfields.
  destruct (store ctx !! a) as [model |] eqn:Hmodel; [| discriminate].
  simpl in Hfields. injection Hfields as <-.
  simpl in Hrun.
  pose proof (write_CanMarshal_same_graph a ctx) as Hsame.
  refine (range_Fields_never_returns (enableMarshal fuel) (m_Fields model)
            (enableMarshal_same_graph fuel) (write_CanMarshal a ctx) f b
            _ Hin Hskip _ ctx' Hrun).
  - intros c Hc c'. apply (IH c b a).
    + eapply references_same_graph; [| exact Hba].
      eapply same_graph_trans; eassumption.
    + eapply references_same_graph; [| exact Hab].
      eapply same_graph_trans; eassumption.
  - exact Hlook.
Qed.

Lemma cyclic_ctx_references ma mb :
  references (cyclic_ctx ma mb) 0 1 /\ references (cyclic_ctx ma mb) 1 0.
Proof.
  split.
  - exists [reference_to "b" "B"], (reference_to "b" "B").
    split; [reflexivity |].
    split; [apply list_elem_of_singleton; reflexivity |].
    split; [reflexivity | vm_compute; reflexivity].
  - exists [reference_to "a" "A"], (reference_to "a" "A").
    split; [reflexivity |].
    split; [apply list_elem_of_singleton; reflexivity |].
    split; [reflexivity | vm_compute; reflexivity].
Qed.

Lemma enableMarshal_cyclic_ctx fuel :
  forall ma mb,
    enableMarshal fuel (Some 0%nat) (cyclic_ctx ma mb) = OutOfFuel /\
    enableMarshal fuel (Some 1%nat) (cyclic_ctx ma mb) = OutOfFuel.
Proof.
  induction fuel as [| fuel IH]; intros ma mb; [split; reflexivity |].
  split.
  - change (enableMarshal (S fuel) (Some 0%nat) (cyclic_ctx ma mb))
      with (let* ctx := enableMarshal fuel (Some 1%nat) (cyclic_ctx true mb) in
            Done ctx).
    now rewrite (proj2 (IH true mb)).
  - change (enableMarshal (S fuel) (Some 1%nat) (cyclic_ctx ma mb))
      with (let* ctx := enableMarshal fuel (Some 0%nat) (cyclic_ctx ma true) in
            Done ctx).
    now rewrite (proj1 (IH ma true)).
Qed.

Lemma ApplyMarshalFlags_field_stops_in_enableMarshal fuel a f ctx m r :
  skipped f = false -> f_IsRepeated f = false ->
  deref ctx (Some a) = Done m -> m_CanMarshal m = true ->
  enableMarshal fuel (modelLookup ctx !! f_Type f) ctx = r ->
  (forall c, r <> Done c) ->
  ApplyMarshalFlags_field fuel a f ctx = r.
Proof.
  intros Hskip Hrep Hderef Hflag Hrun Hr. unfold ApplyMarshalFlags_field.
  rewrite Hskip, Hrep, Hderef. cbn [bind]. rewrite Hflag, Hrun.
  destruct r; try reflexivity. now destruct (Hr a0).
Qed.

Lemma ApplyMarshalFlags_models_stops_in_first_field fuel a rest ctx m f fs r :
  deref ctx (Some a) = Done m -> m_Fields m = f :: fs ->
  ApplyMarshalFlags_field fuel a f ctx = r ->
  (forall c, r <> Done c) ->
  ApplyMarshalFlags_models fuel (a :: rest) ctx = r.
Proof.
  intros Hderef Hfields Hrun Hr. cbn [ApplyMarshalFlags_models].
  rewrite Hderef. cbn [bind]. rewrite Hfields. cbn [ApplyMarshalFlags_fields].
  rewrite Hrun.
  destruct r; try reflexivity. now destruct (Hr a0).
Qed.

(** C1: on the mutually referencing messages A and B, with A the input
    of the method, the context that [CreateClientAPI] builds sends
    [ApplyMarshalFlags] into a recursion that no amount of fuel ends:
    the code keeps no visited set and re-enters a model already marked. *)
Theorem ApplyMarshalFlags_cycle_exhausts_any_fuel :
  forall dartFilename,
    CreateClientAPI dartFilename cyclic_file = Done (cyclic_ctx true false) /\
    forall fuel, ApplyMarshalFlags fuel (cyclic_ctx true false) = OutOfFuel.
Proof.
  intros dartFilename. split; [vm_compute; reflexivity |].
  intros fuel. unfold ApplyMarshalFlags.
  eapply (ApplyMarshalFlags_models_stops_in_first_field fuel 0 [1; 2; 3]%nat);
    [reflexivity | reflexivity | | discriminate].
  eapply ApplyMarshalFlags_field_stops_in_enableMarshal;
    [reflexivity | reflexivity | reflexivity | reflexivity | | discriminate].
  replace (modelLookup (cyclic_ctx true false) !! f_Type (reference_to "b" "B"))
    with (Some 1%nat) by (vm_compute; reflexivity).
  apply enableMarshal_cyclic_ctx.
Qed.

(** The closure does end where the references do: on A referencing B
    and B referencing nothing, both get both flags. *)
Example ApplyMarshalFlags_chain_returns dartFilename :
  exists ctx,
    (let* ctx := CreateClientAPI dartFilename chain_file in ApplyMarshalFlags 2 ctx)
    = Done ctx /\
    (m_CanMarshal <$> store ctx) = [true; true; false] /\
    (m_CanUnmarshal <$> store ctx) = [true; true; false].
Proof. eexists. split; [vm_compute; reflexivity |]. split; reflexivity. Qed.

(** C3: a field whose type is declared in an imported file is not in
    the lookup table.  In the encode direction [ApplyMarshalFlags] passes
    the nil result of the lookup to [enableMarshal], which dereferences
    it: a runtime panic, with no diagnostic.  The decode direction of the
    same loop tests the lookup and stops with the diagnostic. *)
Theorem ApplyMarshalFlags_encode_dereferences_missing_model :
  forall dartFilename fuel,
    (let* ctx := CreateClientAPI dartFilename imported_type_in_file in
     ApplyMarshalFlags (S fuel) ctx) = Panicked NilDereference /\
    (let* ctx := CreateClientAPI dartFilename imported_type_out_file in
     ApplyMarshalFlags (S fuel) ctx) = Fatal (could_not_find "Other" "x").
Proof. intros dartFilename fuel. split; vm_compute; reflexivity. Qed.

(** C4: [ApplyMarshalFlags] strips the List wrapper of a repeated field
    of a model it visits itself, and so marks C from B; [enableMarshal]
    looks up the field type as it stands, and so, reaching B from A,
    stops on the repeated field of B with List<C> as the missing type. *)
Theorem enableMarshal_does_not_unwrap_List :
  forall dartFilename fuel,
    (exists ctx,
       (let* ctx := CreateClientAPI dartFilename list_at_top_file in
        ApplyMarshalFlags (S fuel) ctx) = Done ctx /\
       (m_CanMarshal <$> store ctx) = [false; true; true; false]) /\
    (let* ctx := CreateClientAPI dartFilename list_at_depth_file in
     ApplyMarshalFlags (S fuel) ctx) = Fatal (could_not_find "List<C>" "cs").
Proof.
  intros dartFilename fuel. split.
  - eexists. split; [vm_compute; reflexivity | reflexivity].
  - vm_compute. reflexivity.
Qed.

(** C5: a repeated timestamp field has the type List<DateTime>, which
    the guard of the closure, comparing with DateTime, does not skip;
    the lookup of DateTime then fails and the closure stops on the
    missing type. *)
Theorem repeated_timestamp_is_not_skipped :
  protoToDartType stamps_field = ("List<DateTime>", "DateTime", "string[]") /\
  forall dartFilename fuel,
    (let* ctx := CreateClientAPI dartFilename stamps_file in
     ApplyMarshalFlags fuel ctx) = Fatal (could_not_find "DateTime" "stamps").
Proof.
  split; [reflexivity |]. intros dartFilename fuel. vm_compute. reflexivity.
Qed.

Lemma single_timestamp_is_skipped (f : FieldDescriptorProto) (m : DescriptorProto)
    (d : FileDescriptorProto) (field : ModelField) :
  fd_Type f = TYPE_MESSAGE ->
  fd_TypeName f = ".google.protobuf.Timestamp" ->
  isRepeated f = false ->
  md_NestedType m = [] ->
  newField f m d = Done field ->
  f_Type field = "DateTime" /\ f_JSONType field = "string" /\ skipped field = true.
Proof.
  intros Ht Hn Hrep Hnested. rewrite newField_unfold, Hnested.
  rewrite (protoToDartType_timestamp f Ht Hn), Hrep.
  cbv zeta. destruct (camelCase (fd_Name f)) as [name | | |]; simpl;
    try discriminate.
  intros Hdone. injection Hdone as <-. rewrite Ht. repeat split.
Qed.

(** The decode direction has the same recursion. *)
Lemma enableUnmarshal_fuel_mono fuel :
  forall m ctx r,
    enableUnmarshal fuel m ctx = r -> r <> OutOfFuel ->
    enableUnmarshal (S fuel) m ctx = r.
Proof.
  induction fuel as [| fuel IH]; intros m ctx r Hrun Hr;
    [simpl in Hrun; congruence |].
  change (enableUnmarshal (S (S fuel)) m ctx) with
    (match m with
     | None => Panicked NilDereference
     | Some a =>
         let* model := deref ctx m in
         range_Fields (enableUnmarshal (S fuel)) (m_Fields model)
           (write_CanUnmarshal a ctx)
     end).
  simpl in Hrun. destruct m as [a |]; [| exact Hrun].
  destruct (deref ctx (Some a)) as [model | | |]; simpl in *; try exact Hrun.
  eapply range_Fields_fuel_mono; [exact IH | exact Hrun | exact Hr].
Qed.

Lemma enableUnmarshal_cycle_never_returns fuel :
  forall ctx a b,
    references ctx a b -> references ctx b a ->
    forall ctx', enableUnmarshal fuel (Some a) ctx <> Done ctx'.
Proof.
  induction fuel as [| fuel IH]; intros ctx a b Hab Hba ctx' Hrun;
    simpl in Hrun; [discriminate |].
  pose proof Hab as (fields & f & Hfields & Hin & Hskip & Hlook).
  rewrite list_lookup_fmap in Hfields.
  destruct (store ctx !! a) as [model |] eqn:Hmodel; [| discriminate].
  simpl in Hfields. injection Hfields as <-.
  simpl in Hrun.
  pose proof (write_CanUnmarshal_same_graph a ctx) as Hsame.
  refine (range_Fields_never_returns (enableUnmarshal fuel) (m_Fields model)
            (enableUnmarshal_same_graph fuel) (write_CanUnmarshal a ctx) f b
            _ Hin Hskip _ ctx' Hrun).
  - intros c Hc c'. apply (IH c b a).
    + eapply references_same_graph; [| exact Hba].
      eapply same_graph_trans; eassumption.
    + eapply references_same_graph; [| exact Hab].
      eapply same_graph_trans; eassumption.
  - exact Hlook.
Qed.

Example cyclic_ctx_never_returns fuel ma mb ctx' :
  enableMarshal fuel (Some 0%nat) (cyclic_ctx ma mb) <> Done ctx' /\
  enableUnmarshal fuel (Some 0%nat) (cyclic_ctx ma mb) <> Done ctx'.
Proof.
  destruct (cyclic_ctx_references ma mb) as [Hab Hba]. split.
  - exact (enableMarshal_cycle_never_returns fuel _ 0%nat 1%nat Hab Hba ctx').
  - exact (enableUnmarshal_cycle_never_returns fuel _ 0%nat 1%nat Hab Hba ctx').
Qed.

(** ** Context Aggregator *)

(** *** Seeding the flags from the RPC surface *)

Lemma flags_grown_at_refl a ctx : flags_grown_at a false false ctx ctx.
Proof.
  repeat split; try reflexivity. intros m Hm. exists m.
  rewrite !orb_false_r. repeat split. exact Hm.
Qed.

Lemma flags_grown_at_trans a i1 o1 i2 o2 c1 c2 c3 :
  flags_grown_at a i1 o1 c1 c2 -> flags_grown_at a i2 o2 c2 c3 ->
  flags_grown_at a (i1 || i2) (o1 || o2) c1 c3.
Proof.
  intros (M1 & S1 & I1 & L1 & N1 & F1 & A1) (M2 & S2 & I2 & L2 & N2 & F2 & A2).
  repeat split; try congruence.
  - intros q Hq. rewrite F2, F1 by exact Hq. reflexivity.
  - intros m Hm. destruct (A1 m Hm) as (m1 & Hm1 & E1 & P1 & G1 & X1 & Y1).
    destruct (A2 m1 Hm1) as (m2 & Hm2 & E2 & P2 & G2 & X2 & Y2).
    exists m2. rewrite X2, Y2, X1, Y1, !orb_assoc. repeat split; congruence.
Qed.

Lemma write_CanMarshal_grows a ctx :
  flags_grown_at a true false ctx (write_CanMarshal a ctx).
Proof.
  repeat split; try reflexivity.
  - simpl. apply length_alter.
  - intros q Hq. simpl. apply list_lookup_alter_ne. congruence.
  - intros m Hm. exists (set_CanMarshal m). simpl.
    rewrite list_lookup_alter_eq, Hm, orb_true_r, orb_false_r. repeat split.
Qed.

Lemma write_CanUnmarshal_grows a ctx :
  flags_grown_at a false true ctx (write_CanUnmarshal a ctx).
Proof.
  repeat split; try reflexivity.
  - simpl. apply length_alter.
  - intros q Hq. simpl. apply list_lookup_alter_ne. congruence.
  - intros m Hm. exists (set_CanUnmarshal m). simpl.
    rewrite list_lookup_alter_eq, Hm, orb_true_r, orb_false_r. repeat split.
Qed.

Lemma seed_methods_spec a sms :
  forall ctx m,
    store ctx !! a = Some m ->
    exists ctx',
      seed_methods a sms ctx = Done ctx' /\
      flags_grown_at a
        (existsb (fun sm => String.eqb (m_Name m) (sm_InputType sm)) sms)
        (existsb (fun sm => String.eqb (m_Name m) (sm_OutputType sm)) sms)
        ctx ctx'.
Proof.
  induction sms as [| sm rest IH]; intros ctx m Hm.
  - exists ctx. split; [reflexivity | apply flags_grown_at_refl].
  - cbn [seed_methods existsb]. unfold deref at 1. rewrite Hm. cbn [bind].
    set (i := String.eqb (m_Name m) (sm_InputType sm)).
    set (ctx1 := if i then write_CanMarshal a ctx else ctx).
    assert (G1 : flags_grown_at a i false ctx ctx1).
    { subst ctx1. destruct i;
        [apply write_CanMarshal_grows | apply flags_grown_at_refl]. }
    destruct G1 as (M1 & S1 & I1 & L1 & N1 & F1 & A1).
    destruct (A1 m Hm) as (m1 & Hm1 & E1 & P1 & Fd1 & X1 & Y1).
    unfold deref. rewrite Hm1. cbn [bind]. rewrite E1.
    set (o := String.eqb (m_Name m) (sm_OutputType sm)).
    set (ctx2 := if o then write_CanUnmarshal a ctx1 else ctx1).
    assert (G2 : flags_grown_at a false o ctx1 ctx2).
    { subst ctx2. destruct o;
        [apply write_CanUnmarshal_grows | apply flags_grown_at_refl]. }
    pose proof (flags_grown_at_trans a i false false o ctx ctx1 ctx2
                  (conj M1 (conj S1 (conj I1 (conj L1 (conj N1 (conj F1 A1))))))
                  G2) as G12.
    rewrite orb_false_r in G12. cbn [orb] in G12.
    destruct G12 as (M2 & S2 & I2 & L2 & N2 & F2 & A2).
    destruct (A2 m Hm) as (m2 & Hm2 & E2 & P2 & Fd2 & X2 & Y2).
    destruct (IH ctx2 m2 Hm2) as (ctx' & Hrun & G3).
    exists ctx'. split; [exact Hrun |].
    rewrite E2 in G3.
    exact (flags_grown_at_trans a _ _ _ _ ctx ctx2 ctx'
             (conj M2 (conj S2 (conj I2 (conj L2 (conj N2 (conj F2 A2)))))) G3).
Qed.

Lemma seed_services_spec a ss :
  forall ctx m,
    store ctx !! a = Some m ->
    exists ctx',
      seed_services a ss ctx = Done ctx' /\
      flags_grown_at a (is_inputb ss (m_Name m)) (is_outputb ss (m_Name m)) ctx ctx'.
Proof.
  induction ss as [| s rest IH]; intros ctx m Hm.
  - exists ctx. split; [reflexivity | apply flags_grown_at_refl].
  - cbn [seed_services].
    destruct (seed_methods_spec a (s_Methods s) ctx m Hm) as (ctx1 & Hrun1 & G1).
    rewrite Hrun1. cbn [bind].
    pose proof G1 as (_ & _ & _ & _ & _ & _ & A1).
    destruct (A1 m Hm) as (m1 & Hm1 & E1 & _).
    destruct (IH ctx1 m1 Hm1) as (ctx' & Hrun & G2).
    exists ctx'. split; [exact Hrun |]. rewrite E1 in G2.
    exact (flags_grown_at_trans a _ _ _ _ ctx ctx1 ctx' G1 G2).
Qed.

(** The seeding loop over the models at the addresses [ps]: it returns,
    and a model has grown by the seeds of the RPC surface if its address
    is among [ps]. *)
Lemma seed_models_spec ps :
  forall ctx,
    Forall (fun p => p < length (store ctx)) ps ->
    exists ctx',
      seed_models ps ctx = Done ctx' /\
      Models ctx' = Models ctx /\ Services ctx' = Services ctx /\
      Imports ctx' = Imports ctx /\ modelLookup ctx' = modelLookup ctx /\
      length (store ctx') = length (store ctx) /\
      forall q m, store ctx !! q = Some m ->
        exists m', store ctx' !! q = Some m' /\
          m_Name m' = m_Name m /\ m_Primitive m' = m_Primitive m /\
          m_Fields m' = m_Fields m /\
          m_CanMarshal m' =
            m_CanMarshal m || (bool_decide (q ∈ ps) && is_inputb (Services ctx) (m_Name m)) /\
          m_CanUnmarshal m' =
            m_CanUnmarshal m || (bool_decide (q ∈ ps) && is_outputb (Services ctx) (m_Name m)).
Proof.
  induction ps as [| a rest IH]; intros ctx Hvalid.
  - exists ctx. repeat split; try reflexivity.
    intros q m Hm. exists m. cbn. rewrite !orb_false_r. repeat split. exact Hm.
  - inversion Hvalid as [| ? ? Ha Hrest]; subst.
    destruct (lookup_lt_is_Some_2 (store ctx) a Ha) as [ma Hma].
    cbn [seed_models].
    destruct (seed_services_spec a (Services ctx) ctx ma Hma) as (ctx1 & Hrun1 & G1).
    rewrite Hrun1. cbn [bind].
    destruct G1 as (M1 & S1 & I1 & L1 & N1 & F1 & A1).
    assert (Hvalid1 : Forall (fun p => p < length (store ctx1)) rest)
      by (rewrite N1; exact Hrest).
    destruct (IH ctx1 Hvalid1) as (ctx' & Hrun & M2 & S2 & I2 & L2 & N2 & A2).
    exists ctx'. split; [exact Hrun |].
    repeat split; try congruence.
    intros q m Hm. destruct (decide (q = a)) as [-> | Hne].
    + rewrite Hma in Hm. injection Hm as ->.
      destruct (A1 m Hma) as (m1 & Hm1 & E1 & P1 & Fd1 & X1 & Y1).
      destruct (A2 a m1 Hm1) as (m2 & Hm2 & E2 & P2 & Fd2 & X2 & Y2).
      exists m2. rewrite X2, Y2, X1, Y1, E1, S1.
      rewrite (bool_decide_eq_true_2 (a ∈ a :: rest)) by apply list_elem_of_here.
      repeat split; try congruence.
      * destruct (m_CanMarshal m), (is_inputb (Services ctx) (m_Name m)),
          (bool_decide (a ∈ rest)); reflexivity.
      * destruct (m_CanUnmarshal m), (is_outputb (Services ctx) (m_Name m)),
          (bool_decide (a ∈ rest)); reflexivity.
    + rewrite <- (F1 q Hne) in Hm.
      destruct (A2 q m Hm) as (m2 & Hm2 & E2 & P2 & Fd2 & X2 & Y2).
      exists m2. rewrite X2, Y2, S1.
      replace (bool_decide (q ∈ a :: rest)) with (bool_decide (q ∈ rest)).
      * repeat split; congruence.
      * apply bool_decide_ext. rewrite elem_of_cons. tauto.
Qed.

(** *** Building the models and the services *)

Lemma build_models_spec d ms :
  forall ctx ctx',
    build_models d ms ctx = Done ctx' ->
    Services ctx' = Services ctx /\
    exists news,
      store ctx' = store ctx ++ news /\
      Models ctx' = Models ctx ++ seq (length (store ctx)) (length ms) /\
      Forall unflagged news /\
      m_Name <$> news = md_Name <$> ms.
Proof.
  induction ms as [| m rest IH]; intros ctx ctx' Hrun.
  - simpl in Hrun. injection Hrun as <-. split; [reflexivity |].
    exists []. rewrite !app_nil_r. repeat split. constructor.
  - cbn [build_models] in Hrun.
    destruct (build_fields m d (md_Field m) []) as [fields | | |];
      cbn [bind] in Hrun; try discriminate.
    unfold new_Model, AddModel, deref in Hrun. cbn [store] in Hrun.
    rewrite list_lookup_middle in Hrun by reflexivity. cbn [bind] in Hrun.
    apply IH in Hrun as (HS & news & Hst & HM & Hun & Hnames).
    cbn [store Models Services] in *. split; [exact HS |].
    eexists (_ :: news). rewrite <- app_assoc in Hst. split; [exact Hst |].
    split.
    + rewrite HM, <- app_assoc, length_app. cbn [length app seq].
      replace (length (store ctx) + 1)%nat with (S (length (store ctx))) by lia.
      reflexivity.
    + split; [constructor; [split; reflexivity | exact Hun] |].
      cbn. now rewrite Hnames.
Qed.

Lemma build_services_spec pkg ss :
  forall ctx ctx',
    build_services pkg ss ctx = Done ctx' ->
    store ctx' = store ctx /\ Models ctx' = Models ctx /\
    exists svcs, Services ctx' = Services ctx ++ svcs /\ length svcs = length ss.
Proof.
  induction ss as [| s rest IH]; intros ctx ctx' Hrun.
  - simpl in Hrun. injection Hrun as <-. repeat split.
    exists []. now rewrite app_nil_r.
  - cbn [build_services] in Hrun.
    destruct (build_methods (sd_Method s) []) as [methods | | |];
      cbn [bind] in Hrun; try discriminate.
    apply IH in Hrun as (Hst & HM & svcs & HS & Hlen).
    cbn [store Models Services] in *. repeat split; try assumption.
    eexists (_ :: svcs). rewrite <- app_assoc in HS. split; [exact HS |].
    simpl. now rewrite Hlen.
Qed.

(** *** The import list *)

Lemma ApplyImports_deps_extends dartFilename d dependency :
  forall deps r,
    ApplyImports_deps dartFilename d dependency deps = Done r ->
    exists rest, r = deps ++ rest.
Proof.
  induction dependency as [| dep more IH]; intros deps r Hrun.
  - simpl in Hrun. injection Hrun as <-. exists []. now rewrite app_nil_r.
  - cbn [ApplyImports_deps] in Hrun.
    destruct (String.eqb dep "google/protobuf/timestamp.proto"); [now apply IH |].
    destruct (dependency_import dartFilename d dep) as [i | | |];
      cbn [bind] in Hrun; try discriminate.
    apply IH in Hrun as [rest ->]. exists (i :: rest).
    now rewrite <- app_assoc.
Qed.

Lemma ApplyImports_spec dartFilename d ctx ctx' :
  ApplyImports dartFilename d ctx = Done ctx' ->
  store ctx' = store ctx /\ Models ctx' = Models ctx /\
  Services ctx' = Services ctx /\ modelLookup ctx' = modelLookup ctx /\
  exists rest,
    Imports ctx' =
      (if (0 <? length (Services ctx))%nat then transport_imports else [])
      ++ [encoding_import; own_binding_import d] ++ rest.
Proof.
  unfold ApplyImports. intros Hrun.
  match type of Hrun with
  | bind (ApplyImports_deps _ _ _ ?acc) _ = _ =>
      destruct (ApplyImports_deps dartFilename d (file_Dependency d) acc)
        as [r | | |] eqn:Hdeps
  end; cbn [bind] in Hrun; try discriminate.
  injection Hrun as <-. cbn [store Models Services Imports modelLookup].
  repeat split.
  apply ApplyImports_deps_extends in Hdeps as [rest ->]. exists rest.
  destruct (0 <? length (Services ctx))%nat; cbn; reflexivity.
Qed.

(** *** The context [CreateClientAPI] builds *)

Lemma is_inputb_spec svcs name :
  is_inputb svcs name = true <->
  exists s sm, s ∈ svcs /\ sm ∈ s_Methods s /\ sm_InputType sm = name.
Proof.
  unfold is_inputb. rewrite existsb_exists. split.
  - intros (s & Hs & Hex). apply existsb_exists in Hex as (sm & Hsm & Heq).
    apply String.eqb_eq in Heq. exists s, sm.
    rewrite !list_elem_of_In. auto.
  - intros (s & sm & Hs & Hsm & Heq). exists s.
    rewrite <- list_elem_of_In. split; [exact Hs |].
    apply existsb_exists. exists sm. rewrite <- list_elem_of_In.
    split; [exact Hsm |]. apply String.eqb_eq. auto.
Qed.

Lemma is_outputb_spec svcs name :
  is_outputb svcs name = true <->
  exists s sm, s ∈ svcs /\ sm ∈ s_Methods s /\ sm_OutputType sm = name.
Proof.
  unfold is_outputb. rewrite existsb_exists. split.
  - intros (s & Hs & Hex). apply existsb_exists in Hex as (sm & Hsm & Heq).
    apply String.eqb_eq in Heq. exists s, sm.
    rewrite !list_elem_of_In. auto.
  - intros (s & sm & Hs & Hsm & Heq). exists s.
    rewrite <- list_elem_of_In. split; [exact Hs |].
    apply existsb_exists. exists sm. rewrite <- list_elem_of_In.
    split; [exact Hsm |]. apply String.eqb_eq. auto.
Qed.

(** The stages of [CreateClientAPI], read off a run that returns. *)
Lemma CreateClientAPI_stages dartFilename d ctx :
  CreateClientAPI dartFilename d = Done ctx ->
  exists ctx1 ctx2 ctx3,
    build_models d (file_MessageType d) NewAPIContext = Done ctx1 /\
    build_services (file_Package d) (file_Service d) ctx1 = Done ctx2 /\
    seed_models (Models ctx2) ctx2 = Done ctx3 /\
    store ctx = store ctx3 ++
      [ {| m_Name := "Date"; m_Primitive := true; m_Fields := [];
           m_CanMarshal := false; m_CanUnmarshal := false |} ] /\
    Models ctx = Models ctx3 ++ [length (store ctx3)] /\
    Services ctx = Services ctx3 /\
    exists rest,
      Imports ctx =
        (if (0 <? length (Services ctx3))%nat then transport_imports else [])
        ++ [encoding_import; own_binding_import d] ++ rest.
Proof.
  unfold CreateClientAPI. intros Hrun.
  destruct (build_models d (file_MessageType d) NewAPIContext)
    as [ctx1 | | |] eqn:H1; cbn [bind] in Hrun; try discriminate.
  destruct (build_services (file_Package d) (file_Service d) ctx1)
    as [ctx2 | | |] eqn:H2; cbn [bind] in Hrun; try discriminate.
  destruct (seed_models (Models ctx2) ctx2)
    as [ctx3 | | |] eqn:H3; cbn [bind] in Hrun; try discriminate.
  unfold new_Model, AddModel, deref in Hrun. cbn [store] in Hrun.
  rewrite list_lookup_middle in Hrun by reflexivity. cbn [bind] in Hrun.
  apply ApplyImports_spec in Hrun as (Hst & HM & HS & _ & rest & HI).
  cbn [store Models Services] in *.
  exists ctx1, ctx2, ctx3. repeat split; try assumption. exists rest. exact HI.
Qed.

(** C2, as the code has it: the models built from the messages of the
    file, which are the models at the addresses below the number of
    messages, have CanMarshal exactly when their name is the input type
    of a method and CanUnmarshal exactly when it is the output type of
    one; the synthetic Date model, appended after the seeding, has
    neither flag whatever the methods are. *)
Theorem CreateClientAPI_seeds_message_models (dartFilename : string -> string)
    (d : FileDescriptorProto) (ctx : APIContext) :
  CreateClientAPI dartFilename d = Done ctx ->
  Models ctx = seq 0 (S (length (file_MessageType d))) /\
  m_Name <$> store ctx = (md_Name <$> file_MessageType d) ++ ["Date"] /\
  (forall p, p < length (file_MessageType d) -> seeded_exactly ctx p) /\
  (exists date,
     store ctx !! length (file_MessageType d) = Some date /\
     m_Primitive date = true /\ unflagged date).
Proof.
  intros Hrun.
  apply CreateClientAPI_stages in Hrun
    as (ctx1 & ctx2 & ctx3 & H1 & H2 & H3 & Hst & HM & HS & _).
  apply build_models_spec in H1 as (_ & news & Hst1 & HM1 & Hun & Hnames).
  apply build_services_spec in H2 as (Hst2 & HM2 & _).
  cbn [store Models NewAPIContext app length] in Hst1, HM1.
  assert (Hlen : length news = length (file_MessageType d)).
  { rewrite <- (length_fmap m_Name news), Hnames. apply length_fmap. }
  assert (Hvalid : Forall (fun p => p < length (store ctx2)) (Models ctx2)).
  { rewrite HM2, HM1, Hst2, Hst1, Hlen. apply Forall_forall.
    intros p Hp. apply elem_of_seq in Hp. lia. }
  destruct (seed_models_spec (Models ctx2) ctx2 Hvalid)
    as (ctx3' & H3' & HM3 & HS3 & _ & _ & Hlen3 & Hflags).
  rewrite H3 in H3'. injection H3' as <-.
  assert (Hlen3' : length (store ctx3) = length (file_MessageType d))
    by (rewrite Hlen3, Hst2, Hst1; exact Hlen).
  split; [| split; [| split]].
  - rewrite HM, HM3, HM2, HM1, Hlen3'.
    rewrite seq_S. reflexivity.
  - rewrite Hst, fmap_app. f_equal. rewrite <- Hnames, <- Hst1, <- Hst2.
    apply list_eq. intros q. rewrite !list_lookup_fmap.
    destruct (store ctx2 !! q) as [m |] eqn:Hq.
    + destruct (Hflags q m Hq) as (m' & Hm' & E & _). rewrite Hm'. cbn. now rewrite E.
    + apply lookup_ge_None in Hq. rewrite <- Hlen3 in Hq.
      apply lookup_ge_None in Hq. now rewrite Hq.
  - intros p Hp.
    destruct (lookup_lt_is_Some_2 (store ctx2) p) as [m Hm];
      [rewrite Hst2, Hst1, Hlen; exact Hp |].
    destruct (Hflags p m Hm) as (m' & Hm' & E & _ & _ & X & Y).
    assert (Hunm : unflagged m).
    { rewrite Hst2, Hst1 in Hm. eapply Forall_forall in Hun; [exact Hun |].
      eapply list_elem_of_lookup_2. exact Hm. }
    destruct Hunm as [Xm Ym]. rewrite Xm, Ym in *.
    rewrite bool_decide_eq_true_2 in X, Y
      by (rewrite HM2, HM1; apply elem_of_seq; lia).
    cbn [orb andb] in X, Y.
    exists m'. split.
    { rewrite Hst. rewrite lookup_app_l by (rewrite Hlen3'; exact Hp). exact Hm'. }
    unfold is_input, is_output. rewrite HS, HS3, X, Y, E.
    split; [apply is_inputb_spec | apply is_outputb_spec].
  - eexists. split.
    + rewrite Hst, <- Hlen3'. apply list_lookup_middle. reflexivity.
    + split; [reflexivity | split; reflexivity].
Qed.

Lemma CreateClientAPI_seeds_message_models_witness :
  exists ctx,
    CreateClientAPI sample_dartFilename item_file = Done ctx /\
    Models ctx = seq 0 (S (length (file_MessageType item_file))) /\
    m_Name <$> store ctx = (md_Name <$> file_MessageType item_file) ++ ["Date"] /\
    (forall p, p < length (file_MessageType item_file) -> seeded_exactly ctx p) /\
    (exists date,
       store ctx !! length (file_MessageType item_file) = Some date /\
       m_Primitive date = true /\ unflagged date).
Proof.
  eexists. split; [vm_compute; reflexivity |].
  apply (CreateClientAPI_seeds_message_models sample_dartFilename item_file).
  vm_compute. reflexivity.
Defined.

(** C2, as stated, fails: with a method whose input is a Date
    message declared in an imported file, the context has a model, the
    synthetic Date, whose name is the input type of a method and whose
    CanMarshal flag is off. *)
Lemma CreateClientAPI_leaves_Date_unseeded :
  exists ctx,
    CreateClientAPI sample_dartFilename imported_date_file = Done ctx /\
    1%nat ∈ Models ctx /\ ~ seeded_exactly ctx 1.
Proof.
  eexists. split; [vm_compute; reflexivity |]. split.
  - apply list_elem_of_In. simpl. auto.
  - intros (m & Hm & [_ Hin] & _). cbn in Hm. injection Hm as <-.
    cbn in Hin. enough (false = true) by discriminate. apply Hin.
    eexists _, _. split; [apply list_elem_of_here |].
    split; [apply list_elem_of_here | reflexivity].
Qed.

(** *** Import Resolver *)



Example imports_header_with_a_service :
  imports_header relative_file =
    [ {| Path := "dart:async" |}; {| Path := "package:http/http.dart" |};
      {| Path := "dart:convert" |}; {| Path := "a/b/file.pb.dart" |} ].
Proof. reflexivity. Qed.


(** *** Relative paths *)

Lemma strings_Split_no_slash (name : string) :
  has_slash name = false -> strings_Split name "/" = [name].
Proof.
  induction name as [| c r IH]; intros H; [reflexivity |].
  simpl in H. apply orb_false_iff in H as [Hc Hr].
  cbn [strings_Split]. rewrite Hc, (IH Hr). reflexivity.
Qed.

Lemma plain_file_name_spec (name : string) :
  plain_file_name name = true ->
  String.eqb name EmptyString = false /\ String.eqb name "." = false /\
  String.eqb name ".." = false /\ has_slash name = false.
Proof.
  unfold plain_file_name. rewrite !andb_true_iff, !negb_true_iff. tauto.
Qed.

Lemma clean_step_plain rooted out (name : string) :
  plain_file_name name = true -> clean_step rooted out name = name :: out.
Proof.
  intros H. apply plain_file_name_spec in H as (H0 & H1 & H2 & _).
  unfold clean_step. now rewrite H0, H1, H2.
Qed.





(** * Further properties *)

(** ** Strings *)

Lemma strings_Split_nonempty (s : string) (sep : ascii) : strings_Split s sep <> [].
Proof.
  destruct s as [| c r]; cbn [strings_Split]; [discriminate |].
  destruct (Ascii.eqb c sep); [discriminate |].
  destruct (strings_Split r sep); discriminate.
Qed.

Lemma strings_Split_no_sep (s : string) (sep : ascii) :
  has_byte sep s = false -> strings_Split s sep = [s].
Proof.
  induction s as [| c r IH]; intros H; [reflexivity |].
  cbn [has_byte] in H. apply orb_false_iff in H as [Hc Hr].
  cbn [strings_Split]. rewrite Hc, (IH Hr). reflexivity.
Qed.

Lemma strings_Split_parts_no_sep (s : string) (sep : ascii) :
  Forall (fun p => has_byte sep p = false) (strings_Split s sep).
Proof.
  induction s as [| c r IH]; cbn [strings_Split].
  - repeat constructor.
  - destruct (Ascii.eqb c sep) eqn:Hc; [constructor; [reflexivity | exact IH] |].
    destruct (strings_Split r sep) as [| p ps].
    + repeat constructor. cbn [has_byte]. now rewrite Hc.
    + inversion IH as [| ? ? Hp Hps]; subst. constructor; [| exact Hps].
      cbn [has_byte]. now rewrite Hc, Hp.
Qed.

Lemma strings_Split_app (a b : string) (sep : ascii) :
  strings_Split (a +:+ String sep b) sep = strings_Split a sep ++ strings_Split b sep.
Proof.
  induction a as [| c r IH]; cbn [String.append strings_Split].
  - now rewrite Ascii.eqb_refl.
  - destruct (Ascii.eqb c sep); [now rewrite IH |].
    rewrite IH. pose proof (strings_Split_nonempty r sep) as Hne.
    destruct (strings_Split r sep) as [| p ps]; [congruence | reflexivity].
Qed.

Lemma last_app_nonempty {A} (l1 l2 : list A) (d : A) :
  l2 <> [] -> List.last (l1 ++ l2) d = List.last l2 d.
Proof.
  intros Hne. induction l1 as [| x l1 IH]; [reflexivity |].
  cbn [app]. destruct (l1 ++ l2) eqn:Happ.
  - apply app_eq_nil in Happ as [_ ->]. congruence.
  - cbn [List.last]. exact IH.
Qed.

(** X1: [removePkg] returns the part after the last dot: a qualifier
    and its dot are dropped, and a name without a dot is returned as it
    is. *)
Theorem removePkg_drops_qualifier (pkg name : string) :
  has_byte "." name = false ->
  removePkg (pkg +:+ String "." name) = name /\ removePkg name = name.
Proof.
  intros Hname. unfold removePkg. split.
  - rewrite strings_Split_app, last_app_nonempty by apply strings_Split_nonempty.
    now rewrite (strings_Split_no_sep name "." Hname).
  - now rewrite (strings_Split_no_sep name "." Hname).
Qed.

Lemma removePkg_drops_qualifier_witness :
  removePkg ".google.protobuf.Timestamp" = "Timestamp" /\
  removePkg "Timestamp" = "Timestamp".
Proof.
  apply (removePkg_drops_qualifier ".google.protobuf" "Timestamp"). reflexivity.
Defined.

(** X2: whatever the type name, the name [removePkg] returns has no dot
    in it. *)
Theorem removePkg_has_no_dot (s : string) : has_byte "." (removePkg s) = false.
Proof.
  unfold removePkg. pose proof (strings_Split_parts_no_sep s ".") as Hall.
  induction (strings_Split s ".") as [| p ps IH]; [reflexivity |].
  inversion Hall as [| ? ? Hp Hps]; subst.
  destruct ps as [| q qs]; [exact Hp | exact (IH Hps)].
Qed.

(** ** camelCase, further *)

Lemma camelCase_loop_panics (todo : list string) :
  forall i parts,
    EmptyString ∈ todo ->
    camelCase_loop (S i) todo parts = Panicked SliceBoundsOutOfRange.
Proof.
  induction todo as [| p rest IH]; intros i parts Hin; [inversion Hin |].
  cbn [camelCase_loop Nat.eqb].
  destruct p as [| c tl]; [reflexivity |].
  apply IH. apply elem_of_cons in Hin as [Hin | Hin]; [discriminate | exact Hin].
Qed.

Lemma camelCase_panics_on_parts (s first : string) (rest : list string) :
  strings_Split s "_" = first :: rest -> EmptyString ∈ rest ->
  camelCase s = Panicked SliceBoundsOutOfRange.
Proof.
  intros Hsplit Hin. unfold camelCase. rewrite Hsplit.
  cbn [camelCase_loop Nat.eqb]. now rewrite camelCase_loop_panics.
Qed.

Lemma camelCase_returns_on_parts (s first : string) (rest : list string) :
  strings_Split s "_" = first :: rest ->
  Forall (fun p => p <> EmptyString) rest ->
  camelCase s = Done (first +:+ strings_Join (map capitalize rest) EmptyString).
Proof.
  intros Hsplit Hne. unfold camelCase. rewrite Hsplit.
  pose proof (camelCase_loop_rest rest [] first Hne) as Hloop.
  simpl in Hloop. cbn [camelCase_loop Nat.eqb]. simpl insert. rewrite Hloop.
  cbn [bind]. now rewrite strings_Join_empty_sep.
Qed.

(** X3: a name with two underscores in a row, or with an underscore
    at its end, has an empty segment after the first, and [camelCase]
    panics on it at [p[0:1]]. *)
Theorem camelCase_panics_on_empty_segment (a b : string) :
  camelCase (a +:+ "__" +:+ b) = Panicked SliceBoundsOutOfRange /\
  camelCase (a +:+ "_") = Panicked SliceBoundsOutOfRange.
Proof.
  split.
  - pose proof (strings_Split_nonempty a "_") as Hne.
    destruct (strings_Split a "_") as [| p ps] eqn:Ha; [congruence |].
    apply (camelCase_panics_on_parts _ p (ps ++ EmptyString :: strings_Split b "_")).
    + change (a +:+ "__" +:+ b) with (a +:+ String "_" (String "_" b)).
      rewrite strings_Split_app, Ha. cbn [strings_Split].
      now rewrite Ascii.eqb_refl.
    + apply elem_of_app. right. apply list_elem_of_here.
  - pose proof (strings_Split_nonempty a "_") as Hne.
    destruct (strings_Split a "_") as [| p ps] eqn:Ha; [congruence |].
    apply (camelCase_panics_on_parts _ p (ps ++ [EmptyString])).
    + change (a +:+ "_") with (a +:+ String "_" EmptyString).
      now rewrite strings_Split_app, Ha.
    + apply elem_of_app. right. apply list_elem_of_here.
Qed.

(** X4: a name without underscore is returned as it is; in particular
    the name of the model field then equals its JSON name. *)
Theorem camelCase_without_underscore (s : string) :
  has_byte "_" s = false -> camelCase s = Done s.
Proof.
  intros H.
  rewrite (camelCase_returns_on_parts s s []).
  - cbn. now rewrite append_empty_r.
  - now apply strings_Split_no_sep.
  - constructor.
Qed.

Lemma camelCase_without_underscore_witness : camelCase "userId" = Done "userId".
Proof. apply (camelCase_without_underscore "userId"). reflexivity. Defined.

Lemma has_byte_app (c : ascii) (a b : string) :
  has_byte c (a +:+ b) = has_byte c a || has_byte c b.
Proof.
  induction a as [| x a IH]; cbn [String.append has_byte]; [reflexivity |].
  now rewrite IH, orb_assoc.
Qed.

Lemma upper_ascii_not_underscore (c : ascii) :
  Ascii.eqb c "_" = false -> Ascii.eqb (upper_ascii c) "_" = false.
Proof.
  destruct c as [[] [] [] [] [] [] [] []]; intros H; try reflexivity;
    discriminate H.
Qed.

Lemma lower_ascii_not_underscore (c : ascii) :
  Ascii.eqb c "_" = false -> Ascii.eqb (lower_ascii c) "_" = false.
Proof.
  destruct c as [[] [] [] [] [] [] [] []]; intros H; try reflexivity;
    discriminate H.
Qed.

Lemma strings_ToLower_no_underscore (s : string) :
  has_byte "_" s = false -> has_byte "_" (strings_ToLower s) = false.
Proof.
  induction s as [| c r IH]; [reflexivity |]. cbn [has_byte strings_ToLower].
  intros H. apply orb_false_iff in H as [Hc Hr].
  now rewrite (lower_ascii_not_underscore c Hc), (IH Hr).
Qed.

Lemma capitalize_no_underscore (p : string) :
  has_byte "_" p = false -> has_byte "_" (capitalize p) = false.
Proof.
  destruct p as [| c r]; [reflexivity |]. cbn [has_byte capitalize].
  intros H. apply orb_false_iff in H as [Hc Hr].
  now rewrite (upper_ascii_not_underscore c Hc), (strings_ToLower_no_underscore r Hr).
Qed.

Lemma strings_Join_no_underscore (parts : list string) :
  Forall (fun p => has_byte "_" p = false) parts ->
  has_byte "_" (strings_Join parts EmptyString) = false.
Proof.
  induction parts as [| p ps IH]; intros H; [reflexivity |].
  inversion H as [| ? ? Hp Hps]; subst.
  rewrite strings_Join_empty_sep, has_byte_app, Hp. exact (IH Hps).
Qed.

(** X5: when [camelCase] returns, the name it returns has no
    underscore left in it. *)
Theorem camelCase_result_has_no_underscore (s r : string) :
  camelCase s = Done r -> has_byte "_" r = false.
Proof.
  intros Hrun. pose proof (strings_Split_nonempty s "_") as Hne.
  pose proof (strings_Split_parts_no_sep s "_") as Hparts.
  destruct (strings_Split s "_") as [| first rest] eqn:Hsplit; [congruence |].
  inversion Hparts as [| ? ? Hfirst Hrest]; subst.
  destruct (decide (EmptyString ∈ rest)) as [Hin | Hnotin].
  - rewrite (camelCase_panics_on_parts s first rest Hsplit Hin) in Hrun.
    discriminate.
  - rewrite (camelCase_returns_on_parts s first rest Hsplit) in Hrun.
    + injection Hrun as <-. rewrite has_byte_app, Hfirst.
      apply strings_Join_no_underscore.
      clear -Hrest. induction Hrest as [| p ps Hp Hps IH]; [constructor |].
      cbn [map]. constructor; [now apply capitalize_no_underscore | exact IH].
    + apply Forall_forall. intros p Hp ->. exact (Hnotin Hp).
Qed.

Lemma camelCase_result_has_no_underscore_witness :
  has_byte "_" "FooBarBaz" = false.
Proof.
  apply (camelCase_result_has_no_underscore "Foo_bar_bAZ" "FooBarBaz").
  reflexivity.
Defined.

(** ** Type Mapper, further *)

(** X6: repetition only wraps.  The target type and the internal type
    of a field that is not repeated are the same string; a repeated
    field has that string as internal type, List<...> around it as
    target type, and the wire type followed by []. *)
Theorem protoToDartType_repeated_wraps (f : FieldDescriptorProto) :
  exists t j,
    protoToDartType (clear_label f) = (t, t, j) /\
    protoToDartType f =
      if isRepeated f then ("List<" +:+ t +:+ ">", t, j +:+ "[]") else (t, t, j).
Proof.
  unfold protoToDartType, clear_label, isRepeated. cbn [fd_Type fd_TypeName fd_Label].
  destruct (fd_Type f);
    try (eexists _, _; split; [reflexivity |];
         destruct (fd_Label f) as [[] |]; reflexivity).
  destruct (String.eqb (fd_TypeName f) ".google.protobuf.Timestamp");
    eexists _, _; (split; [reflexivity |]);
    destruct (fd_Label f) as [[] |]; reflexivity.
Qed.

Lemma strings_HasPrefix_has_byte (c : ascii) (old : string) :
  forall s, strings_HasPrefix s old = true -> has_byte c old = true ->
    has_byte c s = true.
Proof.
  induction old as [| a old IH]; intros s Hpre Hc; [discriminate |].
  destruct s as [| b s]; cbn [strings_HasPrefix] in Hpre; [discriminate |].
  apply andb_true_iff in Hpre as [Hab Hpre]. apply Ascii.eqb_eq in Hab as ->.
  cbn [has_byte] in *. apply orb_true_iff in Hc as [Hc | Hc].
  - now rewrite Hc.
  - rewrite (IH s Hpre Hc). apply orb_true_r.
Qed.

Lemma strings_Remove_absent (c : ascii) (old s : string) :
  has_byte c old = true -> has_byte c s = false -> strings_Remove s old = s.
Proof.
  intros Hold. unfold strings_Remove. induction s as [| a r IH]; intros Hs;
    [reflexivity |].
  cbn [remove_all_from].
  destruct (strings_HasPrefix (String a r) old) eqn:Hpre.
  - rewrite (strings_HasPrefix_has_byte c old _ Hpre Hold) in Hs. discriminate.
  - cbn [has_byte] in Hs. apply orb_false_iff in Hs as [_ Hr].
    now rewrite (IH Hr).
Qed.

Lemma strings_Remove_closing (t : string) :
  has_byte ">" t = false -> strings_Remove (t +:+ ">") ">" = t.
Proof.
  unfold strings_Remove. induction t as [| a r IH]; intros H; [reflexivity |].
  cbn [has_byte] in H. apply orb_false_iff in H as [Ha Hr].
  cbn [String.append remove_all_from strings_HasPrefix].
  rewrite Ascii.eqb_sym, Ha. cbn [andb]. now rewrite (IH Hr).
Qed.

(** X7: the unwrapping of [ApplyMarshalFlags] undoes the wrapping of
    [protoToDartType]: removing List< and then > from List<t> gives t
    back, for a type name t without angle brackets. *)
Theorem unwrap_List_of_wrapped (t : string) :
  has_byte "<" t = false -> has_byte ">" t = false ->
  strings_Remove (strings_Remove ("List<" +:+ t +:+ ">") "List<") ">" = t.
Proof.
  intros Hlt Hgt.
  assert (Hinner : strings_Remove ("List<" +:+ t +:+ ">") "List<" = t +:+ ">").
  { unfold strings_Remove. cbn.
    replace (strings_HasPrefix (t +:+ ">") EmptyString) with true
      by (now destruct (t +:+ ">")).
    apply (strings_Remove_absent "<" "List<" (t +:+ ">")); [reflexivity |].
    now rewrite has_byte_app, Hlt. }
  rewrite Hinner. now apply strings_Remove_closing.
Qed.

Lemma unwrap_List_of_wrapped_witness :
  strings_Remove (strings_Remove "List<Item>" "List<") ">" = "Item".
Proof. apply (unwrap_List_of_wrapped "Item"); reflexivity. Defined.

(** ** Field Resolver, further *)

Lemma newField_nested_keeps rec f nesteds :
  forall field field',
    newField_nested rec f nesteds field = Done field' ->
    f_Name field' = f_Name field /\ f_InternalType field' = f_InternalType field /\
    f_JSONName field' = f_JSONName field /\ f_JSONType field' = f_JSONType field /\
    (f_IsMap field' = false ->
       f_IsMap field = false /\ f_Type field' = f_Type field /\
       f_MapKeyField field' = f_MapKeyField field /\
       f_MapValueField field' = f_MapValueField field) /\
    (f_IsMap field' = true -> f_IsMap field = false ->
       exists nested, nested ∈ nesteds /\ md_MapEntry nested = true /\
         strings_HasSuffix (fd_TypeName f) (md_Name nested) = true).
Proof.
  induction nesteds as [| nested rest IH]; intros field field' Hrun.
  - simpl in Hrun. injection Hrun as <-.
    split; [reflexivity |]. split; [reflexivity |]. split; [reflexivity |].
    split; [reflexivity |]. split; [tauto | congruence].
  - cbn [newField_nested] in Hrun.
    destruct (strings_HasSuffix (fd_TypeName f) (md_Name nested)) eqn:Hsuf;
      cbn [negb] in Hrun.
    2:{ destruct (IH _ _ Hrun) as (A & B & C & D & E & F).
        split; [exact A |]. split; [exact B |]. split; [exact C |].
        split; [exact D |]. split; [exact E |].
        intros H1 H2. destruct (F H1 H2) as (n & Hn & Hm & Hs).
        exists n. split; [now apply list_elem_of_further | auto]. }
    unfold GetMapFields in Hrun.
    destruct (md_MapEntry nested) eqn:Hentry.
    2:{ cbn [bind] in Hrun. destruct (IH _ _ Hrun) as (A & B & C & D & E & F).
        split; [exact A |]. split; [exact B |]. split; [exact C |].
        split; [exact D |]. split; [exact E |].
        intros H1 H2. destruct (F H1 H2) as (n & Hn & Hm & Hs).
        exists n. split; [now apply list_elem_of_further | auto]. }
    destruct (md_Field nested) as [| k [| v more]]; cbn [bind] in Hrun;
      try discriminate.
    destruct (rec k nested) as [mk | | |]; cbn [bind] in Hrun; try discriminate.
    destruct (rec v nested) as [mv | | |]; cbn [bind] in Hrun; try discriminate.
    destruct (IH _ _ Hrun) as (A & B & C & D & E & F).
    cbn [set_map f_Name f_InternalType f_JSONName f_JSONType f_IsMap] in *.
    split; [exact A |]. split; [exact B |]. split; [exact C |].
    split; [exact D |]. split.
    + intros Hx. destruct (E Hx) as [Hfalse _]. discriminate.
    + intros _ _. exists nested. split; [apply list_elem_of_here | auto].
Qed.

(** X8: what [newField] takes from the descriptor and from the Type
    Mapper.  The JSON name is the descriptor's name and the name its
    camelCase; internal type and wire type are the mapper's; IsMessage
    says whether the kind is message; a field not marked as a map has
    the mapper's target type and no key or value sub-field; a field is
    marked as a map only if a nested type of the message carries the
    map_entry option and has a name that ends the field's type name. *)
Theorem newField_fields (f : FieldDescriptorProto) (m : DescriptorProto)
    (d : FileDescriptorProto) (field : ModelField) :
  newField f m d = Done field ->
  camelCase (fd_Name f) = Done (f_Name field) /\
  f_JSONName field = fd_Name f /\
  f_InternalType field = snd (fst (protoToDartType f)) /\
  f_JSONType field = snd (protoToDartType f) /\
  f_IsMessage field = (match fd_Type f with TYPE_MESSAGE => true | _ => false end) /\
  (f_IsMap field = false ->
     f_Type field = fst (fst (protoToDartType f)) /\
     f_MapKeyField field = None /\ f_MapValueField field = None) /\
  (f_IsMap field = true ->
     exists nested, nested ∈ md_NestedType m /\ md_MapEntry nested = true /\
       strings_HasSuffix (fd_TypeName f) (md_Name nested) = true).
Proof.
  rewrite newField_unfold.
  destruct (protoToDartType f) as [[dartType internalType] jsonType].
  cbv zeta. destruct (camelCase (fd_Name f)) as [name | | |]; cbn [bind];
    try discriminate.
  match goal with
  | |- context [newField_nested ?r f ?n ?f0] =>
      destruct (newField_nested r f n f0) as [field1 | | |] eqn:Hnested
  end; cbn [bind]; try discriminate.
  intros Hdone. injection Hdone as <-.
  apply newField_nested_keeps in Hnested as (A & B & C & D & E & F).
  cbn in *. rewrite A, B, C, D.
  split; [reflexivity |]. split; [reflexivity |]. split; [reflexivity |].
  split; [reflexivity |]. split; [reflexivity |]. split.
  - intros Hx. destruct (E Hx) as (_ & -> & -> & ->). auto.
  - intros Hx. now apply F.
Qed.

Lemma newField_fields_witness :
  camelCase (fd_Name tags_field) = Done (f_Name tags_model_field) /\
  f_JSONName tags_model_field = fd_Name tags_field /\
  f_InternalType tags_model_field = snd (fst (protoToDartType tags_field)) /\
  f_JSONType tags_model_field = snd (protoToDartType tags_field) /\
  f_IsMessage tags_model_field =
    (match fd_Type tags_field with TYPE_MESSAGE => true | _ => false end) /\
  (f_IsMap tags_model_field = false ->
     f_Type tags_model_field = fst (fst (protoToDartType tags_field)) /\
     f_MapKeyField tags_model_field = None /\
     f_MapValueField tags_model_field = None) /\
  (f_IsMap tags_model_field = true ->
     exists nested, nested ∈ md_NestedType Item /\ md_MapEntry nested = true /\
       strings_HasSuffix (fd_TypeName tags_field) (md_Name nested) = true).
Proof.
  apply (newField_fields tags_field Item item_file tags_model_field).
  reflexivity.
Defined.

(** ** Template helpers *)

Lemma newField_shape f m d field :
  newField f m d = Done field ->
  camelCase (fd_Name f) = Done (f_Name field) /\
  f_JSONName field = fd_Name f /\
  f_IsRepeated field = isRepeated f /\
  f_IsMessage field = (match fd_Type f with TYPE_MESSAGE => true | _ => false end) /\
  ((exists rest, f_Type field = "Map<" +:+ rest) \/
   f_Type field = fst (fst (protoToDartType f))).
Proof.
  rewrite newField_unfold.
  destruct (protoToDartType f) as [[dartType internalType] jsonType].
  cbv zeta. destruct (camelCase (fd_Name f)) as [name | | |]; cbn [bind];
    try discriminate.
  match goal with
  | |- context [newField_nested ?r f ?n ?f0] =>
      destruct (newField_nested r f n f0) as [field1 | | |] eqn:Hnested
  end; cbn [bind]; try discriminate.
  intros Hdone. injection Hdone as <-. cbn.
  pose proof (newField_nested_keeps _ _ _ _ _ Hnested) as (Hn & _ & Hj & _).
  cbn in Hn, Hj. rewrite Hn, Hj.
  split; [reflexivity |]. split; [reflexivity |].
  split; [reflexivity |]. split; [reflexivity |].
  destruct (f_IsMap field1) eqn:Hmap.
  - left. pose proof Hnested as Hinv.
    apply newField_nested_map_invariant in Hinv; [| intros Hx; discriminate Hx].
    destruct (Hinv Hmap) as (k & v & _ & _ & ->). eexists. reflexivity.
  - right. apply newField_nested_keeps in Hnested as (_ & _ & _ & _ & E & _).
    now destruct (E Hmap) as (_ & -> & _).
Qed.

Lemma protoToDartType_repeated_length f :
  isRepeated f = true ->
  exists rest, fst (fst (protoToDartType f)) = "List<" +:+ rest.
Proof.
  intros Hrep. unfold protoToDartType. rewrite Hrep.
  destruct (fd_Type f); try (eexists; reflexivity).
  destruct (String.eqb (fd_TypeName f) ".google.protobuf.Timestamp");
    eexists; reflexivity.
Qed.

Lemma drop_last_two_returns (s : string) :
  (2 <= String.length s)%nat -> exists r, drop_last_two s = Done r.
Proof.
  intros H. unfold drop_last_two.
  destruct (String.length s <? 2)%nat eqn:Hlt; [| eexists; reflexivity].
  apply Nat.ltb_lt in Hlt. lia.
Qed.

Lemma stringify_returns_if (field : ModelField) :
  (f_IsRepeated field = true -> (2 <= String.length (f_Type field))%nat) ->
  exists s, stringify field = Done s.
Proof.
  intros H. unfold stringify. destruct (f_IsRepeated field).
  - destruct (drop_last_two_returns _ (H eq_refl)) as [r ->]. cbn [bind].
    destruct (String.eqb (f_Type field) "Date"), (f_IsMessage field);
      eexists; reflexivity.
  - destruct (String.eqb (f_Type field) "Date"), (f_IsMessage field);
      eexists; reflexivity.
Qed.

Lemma parse_returns_if (field : ModelField) (modelName : string) :
  (f_IsRepeated field = true -> (2 <= String.length (f_Type field))%nat) ->
  exists s, parse field modelName = Done s.
Proof.
  intros H. unfold parse. destruct (f_IsRepeated field).
  - destruct (drop_last_two_returns _ (H eq_refl)) as [r ->]. cbn [bind].
    destruct (String.eqb (f_Type field) "Date"), (f_IsMessage field);
      eexists; reflexivity.
  - destruct (String.eqb (f_Type field) "Date"), (f_IsMessage field);
      eexists; reflexivity.
Qed.

(** X9: [stringify] and [parse] slice two bytes off the type of a
    repeated field, and panic exactly when the field is repeated and its
    type is shorter than that. *)
Theorem stringify_parse_panic_iff (field : ModelField) (modelName : string) :
  (stringify field = Panicked SliceBoundsOutOfRange <->
   f_IsRepeated field = true /\ (String.length (f_Type field) < 2)%nat) /\
  (parse field modelName = Panicked SliceBoundsOutOfRange <->
   f_IsRepeated field = true /\ (String.length (f_Type field) < 2)%nat).
Proof.
  split; split.
  - intros Hp. destruct (f_IsRepeated field) eqn:Hrep.
    + split; [reflexivity |].
      destruct (Nat.lt_ge_cases (String.length (f_Type field)) 2) as [Hlt | Hge];
        [exact Hlt |].
      destruct (stringify_returns_if field (fun _ => Hge)) as [s Hs]. congruence.
    + destruct (stringify_returns_if field) as [s Hs]; [congruence | congruence].
  - intros [Hrep Hlt]. unfold stringify, drop_last_two. rewrite Hrep.
    apply Nat.ltb_lt in Hlt. now rewrite Hlt.
  - intros Hp. destruct (f_IsRepeated field) eqn:Hrep.
    + split; [reflexivity |].
      destruct (Nat.lt_ge_cases (String.length (f_Type field)) 2) as [Hlt | Hge];
        [exact Hlt |].
      destruct (parse_returns_if field modelName (fun _ => Hge)) as [s Hs].
      congruence.
    + destruct (parse_returns_if field modelName) as [s Hs];
        [congruence | congruence].
  - intros [Hrep Hlt]. unfold parse, drop_last_two. rewrite Hrep.
    apply Nat.ltb_lt in Hlt. now rewrite Hlt.
Qed.

Lemma newField_repeated_type_length f m d field :
  newField f m d = Done field ->
  f_IsRepeated field = true -> (2 <= String.length (f_Type field))%nat.
Proof.
  intros Hrun Hrep.
  apply newField_shape in Hrun as (_ & _ & Hr & _ & [[rest ->] | ->]).
  - cbn. lia.
  - rewrite Hr in Hrep. destruct (protoToDartType_repeated_length f Hrep) as [rest ->].
    cbn. lia.
Qed.

(** X10: on a field that [newField] built, neither [stringify] nor
    [parse] panics: the type of a repeated field is List<...> or
    Map<...>, long enough for the slice. *)
Theorem stringify_parse_return_on_resolved_field (f : FieldDescriptorProto)
    (m : DescriptorProto) (d : FileDescriptorProto) (field : ModelField)
    (modelName : string) :
  newField f m d = Done field ->
  (exists s, stringify field = Done s) /\
  (exists s, parse field modelName = Done s).
Proof.
  intros Hrun. split.
  - apply stringify_returns_if. now apply (newField_repeated_type_length f m d).
  - apply parse_returns_if. now apply (newField_repeated_type_length f m d).
Qed.

Lemma stringify_parse_return_on_resolved_field_witness :
  (exists s, stringify tags_model_field = Done s) /\
  (exists s, parse tags_model_field "Item" = Done s).
Proof.
  apply (stringify_parse_return_on_resolved_field tags_field Item item_file).
  reflexivity.
Defined.

Lemma scalar_type_is_not_Date f :
  fd_Type f <> TYPE_MESSAGE ->
  String.eqb (fst (fst (protoToDartType f))) "Date" = false.
Proof.
  intros Hkind. unfold protoToDartType.
  destruct (fd_Type f); try congruence; destruct (isRepeated f); reflexivity.
Qed.

(** X11: for a descriptor that is not of message kind and whose name
    has no underscore, both helpers reduce to the plain member access
    m.<name> on the field [newField] builds, repeated or not. *)
Theorem stringify_parse_scalar (f : FieldDescriptorProto) (m : DescriptorProto)
    (d : FileDescriptorProto) (field : ModelField) (modelName : string) :
  newField f m d = Done field ->
  fd_Type f <> TYPE_MESSAGE ->
  has_byte "_" (fd_Name f) = false ->
  stringify field = Done ("m." +:+ fd_Name f) /\
  parse field modelName = Done ("m." +:+ fd_Name f).
Proof.
  intros Hrun Hkind Hname.
  pose proof (newField_repeated_type_length f m d field Hrun) as Hlen.
  pose proof (newField_shape f m d field Hrun)
    as (Hcamel & Hjson & _ & Hmsg & Htype).
  rewrite (camelCase_returns_on_parts _ (fd_Name f) []) in Hcamel;
    [| now apply strings_Split_no_sep | constructor].
  cbn in Hcamel. rewrite append_empty_r in Hcamel. injection Hcamel as Hn.
  assert (HnotDate : String.eqb (f_Type field) "Date" = false).
  { destruct Htype as [[rest ->] | ->]; [reflexivity |].
    now apply scalar_type_is_not_Date. }
  assert (Hmsg' : f_IsMessage field = false).
  { rewrite Hmsg. destruct (fd_Type f); congruence. }
  unfold stringify, parse. rewrite HnotDate, Hmsg', Hjson, <- Hn, String.eqb_refl.
  destruct (f_IsRepeated field).
  - destruct (drop_last_two_returns _ (Hlen eq_refl)) as [r ->]. split; reflexivity.
  - split; reflexivity.
Qed.

Lemma stringify_parse_scalar_witness :
  stringify (plain_model_field "id" "String" "string") = Done "m.id" /\
  parse (plain_model_field "id" "String" "string") "Item" = Done "m.id".
Proof.
  apply (stringify_parse_scalar
           {| fd_Name := "id"; fd_Type := TYPE_STRING; fd_TypeName := EmptyString;
              fd_Label := Some LABEL_OPTIONAL |} Item item_file);
    [reflexivity | discriminate | reflexivity].
Defined.

(** ** Marshal closure, further *)

Lemma flags_only_grow_refl ctx : flags_only_grow ctx ctx.
Proof.
  split; [reflexivity |]. split; [reflexivity |]. split; [reflexivity |].
  split; [reflexivity |]. split; [reflexivity |].
  intros a m Hm. exists m. split; [exact Hm |]. tauto.
Qed.

Lemma flags_only_grow_trans c1 c2 c3 :
  flags_only_grow c1 c2 -> flags_only_grow c2 c3 -> flags_only_grow c1 c3.
Proof.
  intros (M1 & S1 & I1 & L1 & N1 & A1) (M2 & S2 & I2 & L2 & N2 & A2).
  split; [congruence |]. split; [congruence |]. split; [congruence |].
  split; [congruence |]. split; [congruence |].
  intros a m Hm. destruct (A1 a m Hm) as (m1 & Hm1 & E1 & P1 & F1 & X1 & Y1).
  destruct (A2 a m1 Hm1) as (m2 & Hm2 & E2 & P2 & F2 & X2 & Y2).
  exists m2. split; [exact Hm2 |].
  split; [congruence |]. split; [congruence |]. split; [congruence |]. tauto.
Qed.

Lemma alter_flags_only_grow (g : Model -> Model) a ctx :
  (forall m, m_Name (g m) = m_Name m /\ m_Primitive (g m) = m_Primitive m /\
             m_Fields (g m) = m_Fields m /\
             (m_CanMarshal m = true -> m_CanMarshal (g m) = true) /\
             (m_CanUnmarshal m = true -> m_CanUnmarshal (g m) = true)) ->
  flags_only_grow ctx (with_store ctx (alter g a (store ctx))).
Proof.
  intros Hg. split; [reflexivity |]. split; [reflexivity |].
  split; [reflexivity |]. split; [reflexivity |].
  split; [apply length_alter |].
  intros q m Hm. cbn [store with_store].
  destruct (decide (a = q)) as [-> | Hne].
  - exists (g m). rewrite list_lookup_alter_eq, Hm. split; [reflexivity |]. apply Hg.
  - exists m. rewrite list_lookup_alter_ne by exact Hne. split; [exact Hm |]. tauto.
Qed.

Lemma write_CanMarshal_only_grows a ctx : flags_only_grow ctx (write_CanMarshal a ctx).
Proof. apply alter_flags_only_grow. intros m. cbn. tauto. Qed.

Lemma write_CanUnmarshal_only_grows a ctx :
  flags_only_grow ctx (write_CanUnmarshal a ctx).
Proof. apply alter_flags_only_grow. intros m. cbn. tauto. Qed.

Lemma range_Fields_lifts (R : APIContext -> APIContext -> Prop) rec :
  (forall c, R c c) -> (forall c1 c2 c3, R c1 c2 -> R c2 c3 -> R c1 c3) ->
  (forall m c c', rec m c = Done c' -> R c c') ->
  forall fields ctx ctx', range_Fields rec fields ctx = Done ctx' -> R ctx ctx'.
Proof.
  intros Hrefl Htrans Hrec fields.
  induction fields as [| f rest IH]; intros ctx ctx' Hrun; cbn [range_Fields] in Hrun.
  - injection Hrun as <-. apply Hrefl.
  - destruct (skipped f); [now apply IH |].
    destruct (modelLookup ctx !! f_Type f) as [mm |]; [| discriminate].
    destruct (rec (Some mm) ctx) as [c1 | | |] eqn:Hcall; cbn [bind] in Hrun;
      try discriminate.
    eapply Htrans; [eapply Hrec; exact Hcall | now apply IH].
Qed.

Lemma enableMarshal_only_grows fuel :
  forall m ctx ctx', enableMarshal fuel m ctx = Done ctx' -> flags_only_grow ctx ctx'.
Proof.
  induction fuel as [| fuel IH]; intros m ctx ctx' Hrun; cbn [enableMarshal] in Hrun;
    [discriminate |].
  destruct m as [a |]; [| discriminate].
  destruct (deref ctx (Some a)) as [model | | |]; cbn [bind] in Hrun;
    try discriminate.
  eapply flags_only_grow_trans; [apply (write_CanMarshal_only_grows a) |].
  eapply (range_Fields_lifts flags_only_grow);
    [apply flags_only_grow_refl | apply flags_only_grow_trans | exact IH | exact Hrun].
Qed.

Lemma enableUnmarshal_only_grows fuel :
  forall m ctx ctx', enableUnmarshal fuel m ctx = Done ctx' -> flags_only_grow ctx ctx'.
Proof.
  induction fuel as [| fuel IH]; intros m ctx ctx' Hrun;
    cbn [enableUnmarshal] in Hrun; [discriminate |].
  destruct m as [a |]; [| discriminate].
  destruct (deref ctx (Some a)) as [model | | |]; cbn [bind] in Hrun;
    try discriminate.
  eapply flags_only_grow_trans; [apply (write_CanUnmarshal_only_grows a) |].
  eapply (range_Fields_lifts flags_only_grow);
    [apply flags_only_grow_refl | apply flags_only_grow_trans | exact IH | exact Hrun].
Qed.

Lemma alter_keeps_projection {B} (pr : Model -> B) (g : Model -> Model) (a : nat)
    (st : list Model) :
  (forall m, pr (g m) = pr m) -> pr <$> alter g a st = pr <$> st.
Proof.
  intros Hg. revert a. induction st as [| m st IH]; intros [| a]; simpl;
    try reflexivity.
  - now rewrite Hg.
  - f_equal. apply IH.
Qed.

Lemma enableMarshal_keeps_CanUnmarshal fuel :
  forall m ctx ctx',
    enableMarshal fuel m ctx = Done ctx' ->
    m_CanUnmarshal <$> store ctx = m_CanUnmarshal <$> store ctx'.
Proof.
  induction fuel as [| fuel IH]; intros m ctx ctx' Hrun; cbn [enableMarshal] in Hrun;
    [discriminate |].
  destruct m as [a |]; [| discriminate].
  destruct (deref ctx (Some a)) as [model | | |]; cbn [bind] in Hrun;
    try discriminate.
  transitivity (m_CanUnmarshal <$> store (write_CanMarshal a ctx)).
  - symmetry. apply alter_keeps_projection. reflexivity.
  - eapply (range_Fields_lifts
              (fun c c' => m_CanUnmarshal <$> store c = m_CanUnmarshal <$> store c'));
      [reflexivity | intros; congruence | exact IH | exact Hrun].
Qed.

Lemma enableMarshal_marks_its_argument (fuel a : nat) (ctx ctx' : APIContext) :
  enableMarshal fuel (Some a) ctx = Done ctx' -> marshal_marked ctx' a.
Proof.
  intros Hrun.
  destruct fuel as [| fuel]; cbn [enableMarshal] in Hrun; [discriminate |].
  unfold deref in Hrun.
  destruct (store ctx !! a) as [model |] eqn:Hmodel; cbn [bind] in Hrun;
    [| discriminate].
  apply (range_Fields_lifts flags_only_grow) in Hrun;
    [| apply flags_only_grow_refl | apply flags_only_grow_trans
     | apply enableMarshal_only_grows].
  destruct Hrun as (_ & _ & _ & _ & _ & Hat).
  destruct (Hat a (set_CanMarshal model)) as (m' & Hm' & _ & _ & _ & X & _).
  { cbn. now rewrite list_lookup_alter_eq, Hmodel. }
  exists m'. split; [exact Hm' | now apply X].
Qed.

(** X12: when [enableMarshal] returns, nothing in the context has
    changed but flags: the model lists, services, imports and lookup
    table, and the name and fields of every model are as before, no
    CanMarshal flag that was set has been reset, the model it was called
    on has its CanMarshal flag, and no CanUnmarshal flag has changed. *)
Theorem enableMarshal_raises_CanMarshal_only (fuel a : nat) (ctx ctx' : APIContext) :
  enableMarshal fuel (Some a) ctx = Done ctx' ->
  flags_only_grow ctx ctx' /\
  marshal_marked ctx' a /\
  m_CanUnmarshal <$> store ctx' = m_CanUnmarshal <$> store ctx.
Proof.
  intros Hrun. split; [exact (enableMarshal_only_grows fuel _ _ _ Hrun) |].
  split; [exact (enableMarshal_marks_its_argument fuel a ctx ctx' Hrun) |].
  symmetry. exact (enableMarshal_keeps_CanUnmarshal fuel _ _ _ Hrun).
Qed.

Lemma enableMarshal_raises_CanMarshal_only_witness :
  flags_only_grow (chain_ctx false false) (chain_ctx true true) /\
  marshal_marked (chain_ctx true true) 0 /\
  m_CanUnmarshal <$> store (chain_ctx true true) =
    m_CanUnmarshal <$> store (chain_ctx false false).
Proof.
  apply (enableMarshal_raises_CanMarshal_only 2 0 (chain_ctx false false)).
  vm_compute. reflexivity.
Defined.

Lemma reachable_same_graph c1 c2 a b :
  same_graph c1 c2 -> reachable c1 a b -> reachable c2 a b.
Proof.
  intros Hsame Hreach. induction Hreach as [x | x y z Hxy _ IH].
  - apply rtc_refl.
  - eapply rtc_l; [eapply references_same_graph; eassumption | exact IH].
Qed.

Lemma same_graph_sym c1 c2 : same_graph c1 c2 -> same_graph c2 c1.
Proof. intros [H1 H2]. split; congruence. Qed.

Lemma marshal_marked_grows c1 c2 a :
  flags_only_grow c1 c2 -> marshal_marked c1 a -> marshal_marked c2 a.
Proof.
  intros (_ & _ & _ & _ & _ & Hat) (m & Hm & Hflag).
  destruct (Hat a m Hm) as (m' & Hm' & _ & _ & _ & X & _).
  exists m'. auto.
Qed.

Lemma range_Fields_marks rec fields :
  (forall m c c', rec m c = Done c' -> same_graph c c') ->
  (forall m c c', rec m c = Done c' -> flags_only_grow c c') ->
  (forall b c c', rec (Some b) c = Done c' ->
     forall t, reachable c b t -> marshal_marked c' t) ->
  forall ctx ctx',
    range_Fields rec fields ctx = Done ctx' ->
    forall f b t,
      f ∈ fields -> skipped f = false -> modelLookup ctx !! f_Type f = Some b ->
      reachable ctx b t -> marshal_marked ctx' t.
Proof.
  intros Hgraph Hgrow Hmarks.
  induction fields as [| g rest IH]; intros ctx ctx' Hrun f b t Hin Hskip Hlook Hreach.
  - inversion Hin.
  - cbn [range_Fields] in Hrun. apply elem_of_cons in Hin as [<- | Hin].
    + rewrite Hskip, Hlook in Hrun.
      destruct (rec (Some b) ctx) as [c1 | | |] eqn:Hcall; cbn [bind] in Hrun;
        try discriminate.
      eapply marshal_marked_grows.
      * eapply (range_Fields_lifts flags_only_grow);
          [apply flags_only_grow_refl | apply flags_only_grow_trans
           | exact Hgrow | exact Hrun].
      * eapply Hmarks; eassumption.
    + destruct (skipped g); [eapply IH; eassumption |].
      destruct (modelLookup ctx !! f_Type g) as [mm |]; [| discriminate].
      destruct (rec (Some mm) ctx) as [c1 | | |] eqn:Hcall; cbn [bind] in Hrun;
        try discriminate.
      pose proof (Hgraph _ _ _ Hcall) as Hsame.
      eapply (IH c1 ctx' Hrun f b t Hin Hskip).
      * destruct Hsame as [<- _]. exact Hlook.
      * eapply reachable_same_graph; eassumption.
Qed.

(** X13: when [enableMarshal] returns, every model reached from its
    argument along message fields whose type is not DateTime has its
    CanMarshal flag. *)
Theorem enableMarshal_marks_the_closure (fuel a t : nat) (ctx ctx' : APIContext) :
  enableMarshal fuel (Some a) ctx = Done ctx' ->
  reachable ctx a t ->
  marshal_marked ctx' t.
Proof.
  intros Hrun0 Hreach0. revert a ctx ctx' Hrun0 t Hreach0.
  induction fuel as [| fuel IH]; intros a ctx ctx' Hrun t Hreach;
    [discriminate |].
  pose proof Hrun as Hrun0.
  cbn [enableMarshal] in Hrun. unfold deref in Hrun.
  destruct (store ctx !! a) as [model |] eqn:Hmodel; cbn [bind] in Hrun;
    [| discriminate].
  apply rtc_inv in Hreach as [<- | (c & Hac & Hct)].
  - apply (enableMarshal_marks_its_argument (S fuel) a ctx ctx' Hrun0).
  - destruct Hac as (fields & f & Hfields & Hin & Hskip & Hlook).
    rewrite list_lookup_fmap, Hmodel in Hfields. injection Hfields as <-.
    pose proof (write_CanMarshal_same_graph a ctx) as Hsame.
    eapply (range_Fields_marks (enableMarshal fuel) (m_Fields model)
              (enableMarshal_same_graph fuel) (enableMarshal_only_grows fuel)
              (fun b c c' H => IH b c c' H)
              (write_CanMarshal a ctx) ctx' Hrun f c t Hin Hskip).
    + exact Hlook.
    + eapply reachable_same_graph; eassumption.
Qed.

Lemma chain_ctx_references ma mb : references (chain_ctx ma mb) 0 1.
Proof.
  exists [reference_to "b" "B"], (reference_to "b" "B").
  split; [reflexivity |].
  split; [apply list_elem_of_singleton; reflexivity |].
  split; [reflexivity | vm_compute; reflexivity].
Qed.

Lemma enableMarshal_marks_the_closure_witness :
  marshal_marked (chain_ctx true true) 1.
Proof.
  apply (enableMarshal_marks_the_closure 2 0 1 (chain_ctx false false)).
  - vm_compute. reflexivity.
  - eapply rtc_l; [apply chain_ctx_references | apply rtc_refl].
Defined.

Lemma marshal_marked_write a ctx q :
  marshal_marked (write_CanMarshal a ctx) q -> q = a \/ marshal_marked ctx q.
Proof.
  intros (m & Hm & Hflag). destruct (decide (q = a)) as [-> | Hne]; [now left |].
  right. cbn in Hm. rewrite list_lookup_alter_ne in Hm by congruence.
  exists m. auto.
Qed.

Lemma range_Fields_marks_only rec fields (T : nat -> Prop) :
  (forall m c c', rec m c = Done c' -> same_graph c c') ->
  (forall b c c', rec (Some b) c = Done c' ->
     forall q, marshal_marked c' q -> marshal_marked c q \/ reachable c b q) ->
  forall ctx ctx',
    (forall f b, f ∈ fields -> skipped f = false ->
       modelLookup ctx !! f_Type f = Some b -> T b) ->
    range_Fields rec fields ctx = Done ctx' ->
    forall q, marshal_marked ctx' q ->
      marshal_marked ctx q \/ exists b, T b /\ reachable ctx b q.
Proof.
  intros Hgraph Honly.
  induction fields as [| g rest IH]; intros ctx ctx' HT Hrun q Hq;
    cbn [range_Fields] in Hrun.
  - injection Hrun as <-. now left.
  - destruct (skipped g) eqn:Hskip.
    { eapply IH; [| exact Hrun | exact Hq].
      intros f b Hin. apply HT. now apply list_elem_of_further. }
    destruct (modelLookup ctx !! f_Type g) as [mm |] eqn:Hlook; [| discriminate].
    destruct (rec (Some mm) ctx) as [c1 | | |] eqn:Hcall; cbn [bind] in Hrun;
      try discriminate.
    pose proof (Hgraph _ _ _ Hcall) as Hsame.
    destruct (IH c1 ctx') with (q := q) as [Hc1 | (b & Hb & Hreach)];
      [| exact Hrun | exact Hq | |].
    + intros f b Hin Hs Hl. apply (HT f b); [now apply list_elem_of_further | exact Hs |].
      destruct Hsame as [-> _]. exact Hl.
    + destruct (Honly _ _ _ Hcall q Hc1) as [H0 | Hreach]; [now left |].
      right. exists mm. split; [| exact Hreach].
      apply (HT g mm); [apply list_elem_of_here | exact Hskip | exact Hlook].
    + right. exists b. split; [exact Hb |].
      eapply reachable_same_graph; [apply same_graph_sym; exact Hsame | exact Hreach].
Qed.

(** X14: [enableMarshal] sets no flag outside the closure: a model that
    has its CanMarshal flag when the call returns had it before or is
    reached from the argument. *)
Theorem enableMarshal_marks_nothing_else (fuel a q : nat) (ctx ctx' : APIContext) :
  enableMarshal fuel (Some a) ctx = Done ctx' ->
  marshal_marked ctx' q ->
  marshal_marked ctx q \/ reachable ctx a q.
Proof.
  intros Hrun0 Hq0. revert a ctx ctx' Hrun0 q Hq0.
  induction fuel as [| fuel IH]; intros a ctx ctx' Hrun q Hq; [discriminate |].
  cbn [enableMarshal] in Hrun. unfold deref in Hrun.
  destruct (store ctx !! a) as [model |] eqn:Hmodel; cbn [bind] in Hrun;
    [| discriminate].
  pose proof (write_CanMarshal_same_graph a ctx) as Hsame.
  destruct (range_Fields_marks_only (enableMarshal fuel) (m_Fields model)
              (references ctx a)
              (enableMarshal_same_graph fuel) (fun b c c' H => IH b c c' H)
              (write_CanMarshal a ctx) ctx') with (q := q)
    as [H1 | (b & Hab & Hreach)]; [| exact Hrun | exact Hq | |].
  - intros f b Hin Hskip Hlook. exists (m_Fields model), f.
    rewrite list_lookup_fmap, Hmodel. auto.
  - apply marshal_marked_write in H1 as [-> | H1]; [right; apply rtc_refl | now left].
  - right. eapply rtc_l; [exact Hab |].
    eapply reachable_same_graph; [apply same_graph_sym; exact Hsame | exact Hreach].
Qed.

Lemma enableMarshal_marks_nothing_else_witness :
  marshal_marked (chain_ctx false false) 1 \/ reachable (chain_ctx false false) 0 1.
Proof.
  apply (enableMarshal_marks_nothing_else 2 0 1 (chain_ctx false false)
           (chain_ctx true true)).
  - vm_compute. reflexivity.
  - eexists. split; reflexivity.
Defined.

(** *** Termination without cycles *)

Lemma ranked_same_graph rank c1 c2 :
  same_graph c1 c2 -> ranked rank c1 -> ranked rank c2.
Proof.
  intros Hsame Hr a b Hab. apply Hr.
  eapply references_same_graph; [apply same_graph_sym; exact Hsame | exact Hab].
Qed.

Lemma range_Fields_has_fuel rec fields (T : nat -> Prop) :
  (forall m c c', rec m c = Done c' -> same_graph c c') ->
  forall ctx,
    (forall b c, T b -> same_graph ctx c -> rec (Some b) c <> OutOfFuel) ->
    (forall f b, f ∈ fields -> skipped f = false ->
       modelLookup ctx !! f_Type f = Some b -> T b) ->
    range_Fields rec fields ctx <> OutOfFuel.
Proof.
  intros Hgraph. induction fields as [| g rest IH]; intros ctx Hrec HT;
    cbn [range_Fields]; [discriminate |].
  destruct (skipped g) eqn:Hskip.
  { apply IH; [exact Hrec |]. intros f b Hin. apply HT. now apply list_elem_of_further. }
  destruct (modelLookup ctx !! f_Type g) as [mm |] eqn:Hlook; [| discriminate].
  assert (Hmm : T mm) by (apply (HT g mm); [apply list_elem_of_here | auto | auto]).
  destruct (rec (Some mm) ctx) as [c1 | | |] eqn:Hcall; cbn [bind];
    try discriminate.
  - pose proof (Hgraph _ _ _ Hcall) as Hsame. apply IH.
    + intros b c Hb Hc. apply Hrec; [exact Hb |].
      eapply same_graph_trans; eassumption.
    + intros f b Hin Hs Hl. apply (HT f b); [now apply list_elem_of_further | exact Hs |].
      destruct Hsame as [-> _]. exact Hl.
  - exfalso. exact (Hrec mm ctx Hmm (same_graph_refl ctx) Hcall).
Qed.

(** X15: without a cycle the recursion ends.  If a rank decreases along
    every reference the closure follows, [enableMarshal] on a model
    needs no more call frames than the rank of the model plus one: with
    more fuel than the rank it returns or stops on a missing type. *)
Theorem enableMarshal_terminates_when_ranked (rank : nat -> nat) (fuel a : nat)
    (ctx : APIContext) :
  ranked rank ctx -> rank a < fuel ->
  enableMarshal fuel (Some a) ctx <> OutOfFuel.
Proof.
  intros Hranked0 Hlt0. revert a ctx Hranked0 Hlt0.
  induction fuel as [| fuel IH]; intros a ctx Hranked Hlt; [lia |].
  cbn [enableMarshal]. unfold deref.
  destruct (store ctx !! a) as [model |] eqn:Hmodel; cbn [bind]; [| discriminate].
  pose proof (write_CanMarshal_same_graph a ctx) as Hsame.
  apply (range_Fields_has_fuel (enableMarshal fuel) (m_Fields model)
           (fun b => rank b < fuel) (enableMarshal_same_graph fuel)).
  - intros b c Hb Hc. apply IH; [| exact Hb].
    eapply ranked_same_graph; [| exact Hranked].
    eapply same_graph_trans; eassumption.
  - intros f b Hin Hskip Hlook.
    assert (Hab : references ctx a b).
    { exists (m_Fields model), f. rewrite list_lookup_fmap, Hmodel. auto. }
    specialize (Hranked a b Hab). lia.
Qed.

Lemma chain_ctx_ranked ma mb :
  ranked (fun a => match a with 0%nat => 1%nat | _ => 0%nat end) (chain_ctx ma mb).
Proof.
  intros a b (fields & f & Hfields & Hin & Hskip & Hlook).
  destruct a as [| [| [| a]]]; cbn in Hfields; try discriminate;
    injection Hfields as <-.
  - apply list_elem_of_singleton in Hin as ->.
    vm_compute in Hlook. injection Hlook as <-. lia.
  - inversion Hin.
  - inversion Hin.
Qed.

Lemma enableMarshal_terminates_when_ranked_witness :
  enableMarshal 2 (Some 0%nat) (chain_ctx false false) <> OutOfFuel.
Proof.
  apply (enableMarshal_terminates_when_ranked
           (fun a => match a with 0%nat => 1%nat | _ => 0%nat end) 2 0).
  - apply chain_ctx_ranked.
  - cbn. lia.
Defined.

(** *** ApplyMarshalFlags *)

Lemma ApplyMarshalFlags_field_only_grows fuel a f ctx ctx' :
  ApplyMarshalFlags_field fuel a f ctx = Done ctx' -> flags_only_grow ctx ctx'.
Proof.
  unfold ApplyMarshalFlags_field. destruct (skipped f).
  { intros H. injection H as <-. apply flags_only_grow_refl. }
  destruct (deref ctx (Some a)) as [m1 | | |]; cbn [bind]; try discriminate.
  match goal with
  | |- bind ?r _ = _ -> _ => destruct r as [c1 | | |] eqn:H1
  end; cbn [bind]; try discriminate.
  assert (G1 : flags_only_grow ctx c1).
  { destruct (m_CanMarshal m1).
    - exact (enableMarshal_only_grows fuel _ _ _ H1).
    - injection H1 as <-. apply flags_only_grow_refl. }
  destruct (deref c1 (Some a)) as [m2 | | |]; cbn [bind]; try discriminate.
  destruct (m_CanUnmarshal m2).
  - match goal with
    | |- match ?l with _ => _ end = _ -> _ => destruct l as [m' |]
    end; [| discriminate].
    intros H2. eapply flags_only_grow_trans; [exact G1 |].
    exact (enableUnmarshal_only_grows fuel _ _ _ H2).
  - intros H2. injection H2 as <-. exact G1.
Qed.

Lemma ApplyMarshalFlags_fields_only_grows fuel a fields :
  forall ctx ctx',
    ApplyMarshalFlags_fields fuel a fields ctx = Done ctx' -> flags_only_grow ctx ctx'.
Proof.
  induction fields as [| f rest IH]; intros ctx ctx' Hrun;
    cbn [ApplyMarshalFlags_fields] in Hrun.
  - injection Hrun as <-. apply flags_only_grow_refl.
  - destruct (ApplyMarshalFlags_field fuel a f ctx) as [c1 | | |] eqn:H1;
      cbn [bind] in Hrun; try discriminate.
    eapply flags_only_grow_trans;
      [exact (ApplyMarshalFlags_field_only_grows _ _ _ _ _ H1) | now apply IH].
Qed.

(** X16: the flags are monotonic under [ApplyMarshalFlags]: when it
    returns, model lists, services, imports, lookup table, names and
    fields are as before, and every flag that was set is still set. *)
Theorem ApplyMarshalFlags_flags_only_grow (fuel : nat) (ctx ctx' : APIContext) :
  ApplyMarshalFlags fuel ctx = Done ctx' -> flags_only_grow ctx ctx'.
Proof.
  unfold ApplyMarshalFlags. generalize (Models ctx) as ms. intros ms. revert ctx ctx'.
  induction ms as [| a rest IH]; intros ctx ctx' Hrun;
    cbn [ApplyMarshalFlags_models] in Hrun.
  - injection Hrun as <-. apply flags_only_grow_refl.
  - destruct (deref ctx (Some a)) as [m | | |]; cbn [bind] in Hrun;
      try discriminate.
    destruct (ApplyMarshalFlags_fields fuel a (m_Fields m) ctx) as [c1 | | |] eqn:H1;
      cbn [bind] in Hrun; try discriminate.
    eapply flags_only_grow_trans;
      [exact (ApplyMarshalFlags_fields_only_grows _ _ _ _ _ H1) | now apply IH].
Qed.

Lemma ApplyMarshalFlags_flags_only_grow_witness :
  flags_only_grow (chain_ctx true false) (chain_ctx true true).
Proof.
  apply (ApplyMarshalFlags_flags_only_grow 1 (chain_ctx true false)).
  vm_compute. reflexivity.
Defined.

Lemma ApplyMarshalFlags_fields_unflagged fuel a m fields ctx :
  store ctx !! a = Some m -> unflagged m ->
  ApplyMarshalFlags_fields fuel a fields ctx = Done ctx.
Proof.
  intros Hm [HM HU]. induction fields as [| f rest IH]; [reflexivity |].
  cbn [ApplyMarshalFlags_fields]. unfold ApplyMarshalFlags_field.
  destruct (skipped f); cbn [bind]; [exact IH |].
  unfold deref. rewrite Hm. cbn [bind]. rewrite HM. cbn [bind].
  rewrite Hm. cbn [bind]. rewrite HU. cbn [bind]. exact IH.
Qed.

(** X17: a context in which no model has a flag is returned unchanged
    by [ApplyMarshalFlags]: nothing is looked up, so not even a field of
    a type missing from the table stops it, and no fuel is used. *)
Theorem ApplyMarshalFlags_without_seed (fuel : nat) (ctx : APIContext) :
  Forall (fun a => exists m, store ctx !! a = Some m /\ unflagged m) (Models ctx) ->
  ApplyMarshalFlags fuel ctx = Done ctx.
Proof.
  unfold ApplyMarshalFlags. induction (Models ctx) as [| a rest IH]; intros Hall;
    [reflexivity |].
  inversion Hall as [| ? ? (m & Hm & Hun) Hrest]; subst.
  cbn [ApplyMarshalFlags_models]. unfold deref at 1. rewrite Hm. cbn [bind].
  rewrite (ApplyMarshalFlags_fields_unflagged fuel a m _ ctx Hm Hun). cbn [bind].
  exact (IH Hrest).
Qed.

Lemma ApplyMarshalFlags_without_seed_witness :
  ApplyMarshalFlags 0 (chain_ctx false false) = Done (chain_ctx false false).
Proof.
  apply (ApplyMarshalFlags_without_seed 0 (chain_ctx false false)).
  repeat constructor; eexists; (split; [reflexivity | split; reflexivity]).
Defined.

(** ** Service Builder *)

Lemma lower_first_spec (s r : string) :
  lower_first s = Done r <->
  exists c tl, s = String c tl /\ r = String (lower_ascii c) tl.
Proof.
  unfold lower_first. destruct s as [| c tl]; split.
  - discriminate.
  - intros (c & tl & H & _). discriminate.
  - intros H. injection H as <-. exists c, tl. split; reflexivity.
  - intros (c' & tl' & H & ->). injection H as <- <-. reflexivity.
Qed.

(** X18: a method descriptor becomes a ServiceMethod exactly when its
    name and the unqualified name of its input type are not empty, and
    [build_method] panics otherwise.  The path is the wire method name
    unchanged; the method name and the argument name are the wire name
    and the unqualified input type with their first byte lower-cased;
    input and output types are unqualified. *)
Theorem build_method_spec (m : MethodDescriptorProto) :
  match build_method m with
  | Done sm =>
      sm_Path sm = mth_Name m /\
      sm_InputType sm = removePkg (mth_InputType m) /\
      sm_OutputType sm = removePkg (mth_OutputType m) /\
      (exists c tl, mth_Name m = String c tl /\
                    sm_Name sm = String (lower_ascii c) tl) /\
      (exists c tl, removePkg (mth_InputType m) = String c tl /\
                    sm_InputArg sm = String (lower_ascii c) tl)
  | Panicked p =>
      p = SliceBoundsOutOfRange /\
      (mth_Name m = EmptyString \/ removePkg (mth_InputType m) = EmptyString)
  | Fatal _ | OutOfFuel => False
  end.
Proof.
  unfold build_method, lower_first.
  destruct (mth_Name m) as [| c tl]; cbn [bind]; [auto |].
  destruct (removePkg (mth_InputType m)) as [| c' tl']; cbn [bind]; [auto |].
  cbn. repeat split; eexists _, _; split; reflexivity.
Qed.

Lemma build_methods_mirror ms :
  forall acc r,
    build_methods ms acc = Done r ->
    exists new, r = acc ++ new /\ Forall2 method_of ms new.
Proof.
  induction ms as [| m rest IH]; intros acc r Hrun; cbn [build_methods] in Hrun.
  - injection Hrun as <-. exists []. split; [now rewrite app_nil_r | constructor].
  - destruct (build_method m) as [sm | | |] eqn:Hm; cbn [bind] in Hrun;
      try discriminate.
    apply IH in Hrun as (new & -> & Hall). exists (sm :: new).
    split; [now rewrite <- app_assoc | constructor; assumption].
Qed.

Lemma build_services_mirror pkg ss :
  forall ctx ctx',
    build_services pkg ss ctx = Done ctx' ->
    exists svcs, Services ctx' = Services ctx ++ svcs /\
                 Forall2 (service_of pkg) ss svcs.
Proof.
  induction ss as [| s rest IH]; intros ctx ctx' Hrun; cbn [build_services] in Hrun.
  - injection Hrun as <-. exists []. split; [now rewrite app_nil_r | constructor].
  - destruct (build_methods (sd_Method s) []) as [methods | | |] eqn:Hms;
      cbn [bind] in Hrun; try discriminate.
    apply IH in Hrun as (svcs & HS & Hall). cbn [Services] in HS.
    apply build_methods_mirror in Hms as (new & -> & Hnew). cbn [app] in *.
    eexists (_ :: svcs). split; [rewrite HS, <- app_assoc; reflexivity |].
    constructor; [| exact Hall]. split; [reflexivity |]. split; [reflexivity |].
    exact Hnew.
Qed.

Lemma seed_models_keeps ps ctx ctx' :
  Forall (fun p => p < length (store ctx)) ps ->
  seed_models ps ctx = Done ctx' ->
  Models ctx' = Models ctx /\ Services ctx' = Services ctx /\
  modelLookup ctx' = modelLookup ctx /\
  length (store ctx') = length (store ctx) /\
  forall q m, store ctx !! q = Some m ->
    exists m', store ctx' !! q = Some m' /\ m_Name m' = m_Name m /\
               m_Primitive m' = m_Primitive m /\ m_Fields m' = m_Fields m.
Proof.
  intros Hvalid Hrun.
  destruct (seed_models_spec ps ctx Hvalid)
    as (c & Hc & HM & HS & _ & HL & HN & Hat).
  rewrite Hrun in Hc. injection Hc as <-.
  split; [exact HM |]. split; [exact HS |]. split; [exact HL |].
  split; [exact HN |].
  intros q m Hm. destruct (Hat q m Hm) as (m' & Hm' & E & P & F & _).
  exists m'. auto.
Qed.

(** The stages of [CreateClientAPI] again, with what the first two
    make of the store and of the services. *)
Lemma CreateClientAPI_built dartFilename d ctx :
  CreateClientAPI dartFilename d = Done ctx ->
  exists ctx1 ctx2 ctx3,
    build_models d (file_MessageType d) NewAPIContext = Done ctx1 /\
    build_services (file_Package d) (file_Service d) ctx1 = Done ctx2 /\
    seed_models (Models ctx2) ctx2 = Done ctx3 /\
    Forall (fun p => p < length (store ctx2)) (Models ctx2) /\
    store ctx2 = store ctx1 /\
    length (store ctx1) = length (file_MessageType d) /\
    store ctx = store ctx3 ++
      [ {| m_Name := "Date"; m_Primitive := true; m_Fields := [];
           m_CanMarshal := false; m_CanUnmarshal := false |} ] /\
    Services ctx = Services ctx3 /\
    modelLookup ctx = <["Date" := length (store ctx3)]> (modelLookup ctx3).
Proof.
  unfold CreateClientAPI. intros Hrun.
  destruct (build_models d (file_MessageType d) NewAPIContext)
    as [ctx1 | | |] eqn:H1; cbn [bind] in Hrun; try discriminate.
  destruct (build_services (file_Package d) (file_Service d) ctx1)
    as [ctx2 | | |] eqn:H2; cbn [bind] in Hrun; try discriminate.
  destruct (seed_models (Models ctx2) ctx2)
    as [ctx3 | | |] eqn:H3; cbn [bind] in Hrun; try discriminate.
  unfold new_Model, AddModel, deref in Hrun. cbn [store] in Hrun.
  rewrite list_lookup_middle in Hrun by reflexivity. cbn [bind] in Hrun.
  apply ApplyImports_spec in Hrun as (Hst & HM & HS & HL & _).
  cbn [store Models Services modelLookup m_Name] in *.
  exists ctx1, ctx2, ctx3.
  pose proof (build_models_spec _ _ _ _ H1) as (_ & news & Hst1 & HM1 & _ & Hnames).
  pose proof (build_services_spec _ _ _ _ H2) as (Hst2 & HM2 & _).
  cbn [store Models NewAPIContext app length] in Hst1, HM1.
  assert (Hlen : length (store ctx1) = length (file_MessageType d)).
  { rewrite Hst1, <- (length_fmap m_Name news), Hnames. apply length_fmap. }
  split; [first [reflexivity | assumption] |].
  split; [first [reflexivity | assumption] |].
  split; [first [reflexivity | assumption] |].
  split.
  { rewrite HM2, HM1, Hst2, Hlen. apply Forall_forall.
    intros p Hp. apply elem_of_seq in Hp. lia. }
  split; [exact Hst2 |]. split; [exact Hlen |].
  split; [exact Hst |]. split; [exact HS | exact HL].
Qed.

(** X19: the services of the context mirror the service descriptors of
    the file, in order: each has the name of its descriptor and the
    package of the file, and its methods are the descriptor's methods,
    in order, each as [build_method] makes it. *)
Theorem CreateClientAPI_services (dartFilename : string -> string)
    (d : FileDescriptorProto) (ctx : APIContext) :
  CreateClientAPI dartFilename d = Done ctx ->
  Forall2 (service_of (file_Package d)) (file_Service d) (Services ctx).
Proof.
  intros Hrun.
  apply CreateClientAPI_built in Hrun
    as (ctx1 & ctx2 & ctx3 & H1 & H2 & H3 & Hvalid & _ & _ & _ & HS & _).
  apply build_models_spec in H1 as (HS1 & _).
  apply build_services_mirror in H2 as (svcs & HS2 & Hall).
  apply (seed_models_keeps _ _ _ Hvalid) in H3 as (_ & HS3 & _).
  rewrite HS, HS3, HS2, HS1. exact Hall.
Qed.

Lemma CreateClientAPI_services_witness :
  exists ctx,
    CreateClientAPI sample_dartFilename item_file = Done ctx /\
    Forall2 (service_of (file_Package item_file)) (file_Service item_file)
      (Services ctx).
Proof.
  eexists. split; [vm_compute; reflexivity |].
  apply (CreateClientAPI_services sample_dartFilename item_file).
  vm_compute. reflexivity.
Defined.

(** ** Model Builder *)

Lemma build_fields_mirror m d fs :
  forall acc r,
    build_fields m d fs acc = Done r ->
    exists new, r = acc ++ new /\
      Forall2 (fun f field => newField f m d = Done field) fs new.
Proof.
  induction fs as [| f rest IH]; intros acc r Hrun; cbn [build_fields] in Hrun.
  - injection Hrun as <-. exists []. split; [now rewrite app_nil_r | constructor].
  - destruct (newField f m d) as [field | | |] eqn:Hf; cbn [bind] in Hrun;
      try discriminate.
    apply IH in Hrun as (new & -> & Hall). exists (field :: new).
    split; [now rewrite <- app_assoc | constructor; assumption].
Qed.

Lemma lookup_kept_by_add ctx ctx' model :
  store ctx' = store ctx ++ [model] ->
  modelLookup ctx' = <[m_Name model := length (store ctx)]> (modelLookup ctx) ->
  lookup_sound ctx -> lookup_complete ctx ->
  lookup_sound ctx' /\ lookup_complete ctx'.
Proof.
  intros Hst Hl Hsound Hcomplete. split.
  - intros name a Ha. rewrite Hl in Ha. rewrite Hst.
    destruct (decide (m_Name model = name)) as [<- | Hne].
    + rewrite lookup_insert_eq in Ha. injection Ha as <-.
      exists model. split; [now apply list_lookup_middle | reflexivity].
    + rewrite lookup_insert_ne in Ha by exact Hne.
      destruct (Hsound name a Ha) as (m & Hm & Hn). exists m.
      split; [| exact Hn]. rewrite lookup_app_l; [exact Hm |].
      eapply lookup_lt_Some. exact Hm.
  - intros a m Hm. rewrite Hl. rewrite Hst in Hm.
    destruct (decide (m_Name model = m_Name m)) as [-> | Hne].
    + rewrite lookup_insert_eq. eauto.
    + rewrite lookup_insert_ne by exact Hne.
      apply lookup_app_Some in Hm as [Hm | [_ Hm]]; [now apply (Hcomplete a) |].
      apply list_lookup_singleton_Some in Hm as [_ <-]. congruence.
Qed.

Lemma build_models_mirror d ms :
  forall ctx ctx',
    build_models d ms ctx = Done ctx' ->
    lookup_sound ctx -> lookup_complete ctx ->
    (exists news, store ctx' = store ctx ++ news /\ Forall2 (model_of d) ms news) /\
    lookup_sound ctx' /\ lookup_complete ctx'.
Proof.
  induction ms as [| m rest IH]; intros ctx ctx' Hrun Hsound Hcomplete.
  - simpl in Hrun. injection Hrun as <-.
    split; [| split; assumption].
    exists []. split; [now rewrite app_nil_r | constructor].
  - cbn [build_models] in Hrun.
    destruct (build_fields m d (md_Field m) []) as [fields | | |] eqn:Hfields;
      cbn [bind] in Hrun; try discriminate.
    unfold new_Model, AddModel, deref in Hrun. cbn [store] in Hrun.
    rewrite list_lookup_middle in Hrun by reflexivity. cbn [bind] in Hrun.
    apply build_fields_mirror in Hfields as (new & -> & Hnew). cbn [app] in *.
    match type of Hrun with
    | build_models _ _ ?c = _ =>
        destruct (lookup_kept_by_add ctx c
                    {| m_Name := md_Name m; m_Primitive := false; m_Fields := new;
                       m_CanMarshal := false; m_CanUnmarshal := false |}
                    eq_refl eq_refl Hsound Hcomplete) as [Hs1 Hc1]
    end.
    destruct (IH _ _ Hrun Hs1 Hc1) as ((news & Hst & Hall) & Hs & Hc).
    split; [| split; assumption].
    cbn [store] in Hst. eexists (_ :: news).
    split; [rewrite Hst, <- app_assoc; reflexivity |].
    constructor; [| exact Hall].
    split; [reflexivity |]. split; [reflexivity | exact Hnew].
Qed.

Lemma NewAPIContext_lookup : lookup_sound NewAPIContext /\ lookup_complete NewAPIContext.
Proof.
  split.
  - intros name a Ha. cbn in Ha. rewrite lookup_empty in Ha. discriminate.
  - intros a m Hm. cbn in Hm. rewrite lookup_nil in Hm. discriminate.
Qed.

Lemma CreateClientAPI_models_and_lookup dartFilename d ctx :
  CreateClientAPI dartFilename d = Done ctx ->
  (exists models,
     store ctx = models ++ [Date_model] /\
     Forall2 (model_of d) (file_MessageType d) models) /\
  lookup_sound ctx /\ lookup_complete ctx /\
  modelLookup ctx !! "Date" = Some (length (file_MessageType d)).
Proof.
  intros Hrun.
  apply CreateClientAPI_built in Hrun
    as (ctx1 & ctx2 & ctx3 & H1 & H2 & H3 & Hvalid & Hst2 & Hlen & Hst & _ & HL).
  destruct NewAPIContext_lookup as [Hs0 Hc0].
  apply (build_models_mirror d) in H1 as ((news & Hst1 & Hall) & Hs1 & Hc1);
    [| exact Hs0 | exact Hc0].
  cbn [store NewAPIContext app] in Hst1.
  pose proof (build_services_spec _ _ _ _ H2) as (_ & _ & _).
  assert (HL2 : modelLookup ctx2 = modelLookup ctx1).
  { clear -H2. revert ctx1 ctx2 H2.
    induction (file_Service d) as [| s rest IH]; intros ctx1 ctx2 H2;
      cbn [build_services] in H2.
    - now injection H2 as <-.
    - destruct (build_methods (sd_Method s) []) as [methods | | |];
        cbn [bind] in H2; try discriminate.
      apply IH in H2. exact H2. }
  apply (seed_models_keeps _ _ _ Hvalid) in H3 as (_ & _ & HL3 & HN3 & Hat).
  assert (Hall3 : Forall2 (model_of d) (file_MessageType d) (store ctx3)).
  { apply Forall2_same_length_lookup. split.
    - rewrite HN3, Hst2. symmetry. exact Hlen.
    - intros i msg model Hmsg Hmodel.
      destruct (lookup_lt_is_Some_2 (store ctx2) i) as [m2 Hm2].
      { rewrite <- HN3. eapply lookup_lt_Some. exact Hmodel. }
      destruct (Hat i m2 Hm2) as (m' & Hm' & E & P & F).
      rewrite Hmodel in Hm'. injection Hm' as <-.
      rewrite Hst2, Hst1 in Hm2.
      pose proof (Forall2_lookup_lr _ _ _ _ _ _ Hall Hmsg Hm2) as (A & B & C).
      split; [congruence |]. split; [congruence |]. now rewrite F. }
  assert (Hs3 : lookup_sound ctx3).
  { intros name a Ha. rewrite HL3, HL2 in Ha.
    destruct (Hs1 name a Ha) as (m & Hm & Hn). rewrite <- Hst2 in Hm.
    destruct (Hat a m Hm) as (m' & Hm' & E & _). exists m'. split; congruence. }
  assert (Hc3 : lookup_complete ctx3).
  { intros a m' Hm'. rewrite HL3, HL2.
    destruct (lookup_lt_is_Some_2 (store ctx2) a) as [m2 Hm2].
    { rewrite <- HN3. eapply lookup_lt_Some. exact Hm'. }
    destruct (Hat a m2 Hm2) as (m'' & Hm'' & E & _).
    rewrite Hm' in Hm''. injection Hm'' as <-. rewrite E.
    apply (Hc1 a). now rewrite <- Hst2. }
  destruct (lookup_kept_by_add ctx3 ctx Date_model Hst HL Hs3 Hc3) as [Hs Hc].
  split; [exists (store ctx3); split; [exact Hst | exact Hall3] |].
  split; [exact Hs |]. split; [exact Hc |].
  rewrite HL, lookup_insert_eq, HN3, Hst2, Hlen. reflexivity.
Qed.



(** X21: the lookup table of the context agrees with its store: every
    entry leads to a model of that name, every model is found under its
    name, and the name Date leads to the synthetic Date model, also when
    the file declares a message of that name. *)
Theorem CreateClientAPI_lookup (dartFilename : string -> string)
    (d : FileDescriptorProto) (ctx : APIContext) :
  CreateClientAPI dartFilename d = Done ctx ->
  lookup_sound ctx /\ lookup_complete ctx /\
  modelLookup ctx !! "Date" = Some (length (file_MessageType d)) /\
  store ctx !! length (file_MessageType d) = Some Date_model.
Proof.
  intros Hrun.
  pose proof (CreateClientAPI_models_and_lookup dartFilename d ctx Hrun)
    as ((models & Hst & Hall) & Hs & Hc & HD).
  split; [exact Hs |]. split; [exact Hc |]. split; [exact HD |].
  rewrite Hst. apply list_lookup_middle.
  eapply Forall2_length. exact Hall.
Qed.

Lemma CreateClientAPI_lookup_witness :
  exists ctx,
    CreateClientAPI sample_dartFilename item_file = Done ctx /\
    lookup_sound ctx /\ lookup_complete ctx /\
    modelLookup ctx !! "Date" = Some (length (file_MessageType item_file)) /\
    store ctx !! length (file_MessageType item_file) = Some Date_model.
Proof.
  eexists. split; [vm_compute; reflexivity |].
  apply (CreateClientAPI_lookup sample_dartFilename item_file).
  vm_compute. reflexivity.
Defined.

(** ** Import Resolver, further *)

Lemma ApplyImports_deps_mirror dartFilename d dependency :
  forall deps r,
    ApplyImports_deps dartFilename d dependency deps = Done r ->
    exists rest,
      r = deps ++ rest /\
      Forall2 (fun dep i => dependency_import dartFilename d dep = Done i)
        (List.filter
           (fun dep => negb (String.eqb dep "google/protobuf/timestamp.proto"))
           dependency)
        rest.
Proof.
  induction dependency as [| dep more IH]; intros deps r Hrun;
    cbn [ApplyImports_deps List.filter] in *.
  - injection Hrun as <-. exists []. split; [now rewrite app_nil_r | constructor].
  - destruct (String.eqb dep "google/protobuf/timestamp.proto"); cbn [negb].
    + now apply IH.
    + destruct (dependency_import dartFilename d dep) as [i | | |] eqn:Hi;
        cbn [bind] in Hrun; try discriminate.
      apply IH in Hrun as (rest & -> & Hall). exists (i :: rest).
      split; [now rewrite <- app_assoc | constructor; assumption].
Qed.

(** X22: [ApplyImports] replaces the import list and touches nothing
    else.  The new list is the header (the two transport imports when
    the context has a service, dart:convert, the own binding import)
    followed by one import per dependency other than the timestamp
    schema, in the order of the dependencies; what the list held before
    plays no part. *)
Theorem ApplyImports_replaces_imports (dartFilename : string -> string)
    (d : FileDescriptorProto) (ctx ctx' : APIContext) :
  ApplyImports dartFilename d ctx = Done ctx' ->
  store ctx' = store ctx /\ Models ctx' = Models ctx /\
  Services ctx' = Services ctx /\ modelLookup ctx' = modelLookup ctx /\
  exists rest,
    Imports ctx' = imports_header_of ctx d ++ rest /\
    Forall2 (fun dep i => dependency_import dartFilename d dep = Done i)
      (imported_dependencies d) rest.
Proof.
  unfold ApplyImports. intros Hrun.
  match type of Hrun with
  | bind (ApplyImports_deps _ _ _ ?acc) _ = _ =>
      destruct (ApplyImports_deps dartFilename d (file_Dependency d) acc)
        as [r | | |] eqn:Hdeps
  end; cbn [bind] in Hrun; try discriminate.
  injection Hrun as <-. cbn [store Models Services Imports modelLookup].
  split; [reflexivity |]. split; [reflexivity |]. split; [reflexivity |].
  split; [reflexivity |].
  apply ApplyImports_deps_mirror in Hdeps as (rest & -> & Hall). exists rest.
  split; [| exact Hall]. unfold imports_header_of.
  destruct (0 <? length (Services ctx))%nat; reflexivity.
Qed.

Lemma ApplyImports_replaces_imports_witness :
  exists ctx',
    ApplyImports sample_dartFilename relative_file NewAPIContext = Done ctx' /\
    store ctx' = store NewAPIContext /\ Models ctx' = Models NewAPIContext /\
    Services ctx' = Services NewAPIContext /\
    modelLookup ctx' = modelLookup NewAPIContext /\
    exists rest,
      Imports ctx' = imports_header_of NewAPIContext relative_file ++ rest /\
      Forall2 (fun dep i => dependency_import sample_dartFilename relative_file dep = Done i)
        (imported_dependencies relative_file) rest.
Proof.
  eexists. split; [vm_compute; reflexivity |].
  apply (ApplyImports_replaces_imports sample_dartFilename relative_file NewAPIContext).
  vm_compute. reflexivity.
Defined.

Lemma ApplyImports_deps_named dartFilename d name dependency :
  file_Name d = Some name ->
  forall deps, exists r, ApplyImports_deps dartFilename d dependency deps = Done r.
Proof.
  intros Hname. induction dependency as [| dep more IH]; intros deps;
    cbn [ApplyImports_deps].
  - eexists. reflexivity.
  - destruct (String.eqb dep "google/protobuf/timestamp.proto"); [apply IH |].
    unfold dependency_import. rewrite Hname.
    destruct (trim_components _ _ _) as [importPath distance]. cbn [bind]. apply IH.
Qed.

Lemma ApplyImports_deps_unnamed dartFilename d dependency :
  file_Name d = None ->
  forall deps,
    match ApplyImports_deps dartFilename d dependency deps with
    | Done _ =>
        List.filter
          (fun dep => negb (String.eqb dep "google/protobuf/timestamp.proto"))
          dependency = []
    | Panicked p =>
        p = NilDereference /\
        List.filter
          (fun dep => negb (String.eqb dep "google/protobuf/timestamp.proto"))
          dependency <> []
    | _ => False
    end.
Proof.
  intros Hname. induction dependency as [| dep more IH]; intros deps;
    cbn [ApplyImports_deps List.filter].
  - reflexivity.
  - destruct (String.eqb dep "google/protobuf/timestamp.proto"); cbn [negb];
      [apply IH |].
    unfold dependency_import. rewrite Hname. cbn [bind].
    split; [reflexivity | discriminate].
Qed.

(** X23: [ApplyImports] reads the file name through the pointer only
    when a dependency gets an import.  It returns when the file has a
    name or no dependency other than the timestamp schema, and panics
    with a nil dereference when the name is nil and there is such a
    dependency; it ends in no other way. *)
Theorem ApplyImports_outcome (dartFilename : string -> string)
    (d : FileDescriptorProto) (ctx : APIContext) :
  match ApplyImports dartFilename d ctx with
  | Done _ => file_Name d <> None \/ imported_dependencies d = []
  | Panicked p =>
      p = NilDereference /\ file_Name d = None /\ imported_dependencies d <> []
  | Fatal _ | OutOfFuel => False
  end.
Proof.
  unfold ApplyImports, imported_dependencies.
  match goal with
  | |- context [ApplyImports_deps _ _ _ ?acc] => set (deps := acc)
  end.
  destruct (file_Name d) as [name |] eqn:Hname.
  - destruct (ApplyImports_deps_named dartFilename d name (file_Dependency d)
                Hname deps) as [r ->].
    cbn [bind]. left. discriminate.
  - pose proof (ApplyImports_deps_unnamed dartFilename d (file_Dependency d)
                  Hname deps) as H.
    destruct (ApplyImports_deps dartFilename d (file_Dependency d) deps);
      cbn [bind]; [now right | exact H | tauto | exact H].
Qed.

(** X24: [ApplyImports] is idempotent: applied to the context it
    returned, it returns that context again. *)
Theorem ApplyImports_idempotent (dartFilename : string -> string)
    (d : FileDescriptorProto) (ctx ctx' : APIContext) :
  ApplyImports dartFilename d ctx = Done ctx' ->
  ApplyImports dartFilename d ctx' = Done ctx'.
Proof.
  unfold ApplyImports. intros Hrun.
  match type of Hrun with
  | bind (ApplyImports_deps _ _ _ ?acc) _ = _ =>
      destruct (ApplyImports_deps dartFilename d (file_Dependency d) acc)
        as [r | | |] eqn:Hdeps
  end; cbn [bind] in Hrun; try discriminate.
  injection Hrun as <-. cbn [Services store Models modelLookup].
  rewrite Hdeps. reflexivity.
Qed.

Lemma ApplyImports_idempotent_witness :
  exists ctx',
    ApplyImports sample_dartFilename relative_file NewAPIContext = Done ctx' /\
    ApplyImports sample_dartFilename relative_file ctx' = Done ctx'.
Proof.
  eexists. split; [vm_compute; reflexivity |].
  apply (ApplyImports_idempotent sample_dartFilename relative_file NewAPIContext).
  vm_compute. reflexivity.
Defined.

Lemma path_Dir_no_slash (name : string) :
  has_slash name = false -> path_Dir name = ".".
Proof.
  intros H. unfold path_Dir. now rewrite (strings_Split_no_slash name H).
Qed.

(** X25: a dependency in the same directory as a schema file that sits
    in no directory is imported by its bare binding file name: for file
    and dependency names without a slash, the directory of both is ".",
    the one component is trimmed, and nothing is prefixed. *)
Theorem dependency_import_beside_file (dartFilename : string -> string)
    (d : FileDescriptorProto) (name dep : string) :
  file_Name d = Some name ->
  has_slash name = false -> has_slash dep = false ->
  plain_file_name (dartFilename dep) = true ->
  dependency_import dartFilename d dep = Done {| Path := dartFilename dep |}.
Proof.
  intros Hname Hn Hd Hplain. unfold dependency_import.
  rewrite Hname, (path_Dir_no_slash name Hn), (path_Dir_no_slash dep Hd).
  cbn. f_equal. f_equal.
  pose proof (plain_file_name_spec _ Hplain) as (H0 & _ & _ & Hs).
  unfold path_Join. cbn. rewrite H0. unfold path_Clean.
  rewrite (strings_Split_no_slash _ Hs). cbn [fold_left].
  rewrite (clean_step_plain _ _ _ Hplain). cbn.
  destruct (dartFilename dep) as [| c r] eqn:Hfn; [discriminate |].
  cbn [has_slash] in Hs. apply orb_false_iff in Hs as [Hc _].
  cbn [strings_HasPrefix]. rewrite Ascii.eqb_sym, Hc. reflexivity.
Qed.

Lemma dependency_import_beside_file_witness :
  dependency_import sample_dartFilename
    (rpc_file "svc.proto" [] ".pkg.A" ".pkg.A" ["types.proto"]) "types.proto"
  = Done {| Path := "types.pb.dart" |}.
Proof.
  apply (dependency_import_beside_file sample_dartFilename _ "svc.proto" "types.proto");
    reflexivity.
Defined.
